(** * A model of the static-site build pipeline of [gulpfile.js]

    The gulpfile is glue code: every task is a [src(...).pipe(...)] chain
    over third-party plugins, and the pipelines are built with gulp's
    [series] and [parallel].  The development below embeds

    - paths and glob patterns (the strings handed to [src] and [watch]);
    - the file system as a finite map from paths to file contents;
    - the tasks [clean], [copy], [html], [style], [images], [buildJs],
      [reload], [deploy] and [serve] as state transformers on a [world];
    - [exports.build] and [exports.default] as composition trees, run by an
      interleaving step function.

    The content transformations of the delegated tools (pug, less, csso,
    webpack, ...) are not part of the repository: they are fields of a
    [toolchain] record over which everything is parametrised.  What the gulp
    API itself does (globbing, [base], [dest], [plumber], [rename], [series],
    [parallel], [watch]) is modelled after its documented behaviour. *)

From Stdlib Require Import String Ascii List Bool Arith Lia.
From stdpp Require Import gmap strings list fin_maps.

Set Warnings "-register-all".

Local Open Scope string_scope.
Local Open Scope list_scope.

(** ** Paths *)

(** A path is the list of its segments, relative to the working directory of
    the gulp process: ['source/less/style.less'] is
    [["source"; "less"; "style.less"]]. *)
Abbreviation path := (list string).
Abbreviation bytes := (list Byte.byte).

Module Path.

(** [true] when [d] is a (non-strict) ancestor of [p]. *)
Fixpoint under (d p : path) : bool :=
  match d, p with
  | [], _ => true
  | x :: d', y :: p' => String.eqb x y && under d' p'
  | _ :: _, [] => false
  end.

(** [path.relative(base, p)] for a [p] below [base]; a path outside of
    [base] is left as it is. *)
Fixpoint relative (base p : path) : path :=
  match base, p with
  | x :: base', y :: p' => if String.eqb x y then relative base' p' else p
  | _, _ => p
  end.

(** Position of the last dot of a file name: the name is split into what
    precedes the dot and the rest, dot included. *)
Fixpoint split_last_dot (s : string) : option (string * string) :=
  match s with
  | EmptyString => None
  | String c r =>
      match split_last_dot r with
      | Some (a, e) => Some (String c a, e)
      | None => if Ascii.eqb c "." then Some (EmptyString, s) else None
      end
  end.

(** Node's [path.extname] on one segment: from the last dot to the end;
    empty when there is no dot, when the only dot is the first character,
    and for [".."]. *)
Definition extname (s : string) : string :=
  match split_last_dot s with
  | Some (EmptyString, _) => ""
  | Some (_, e) => if String.eqb s ".." then "" else e
  | None => ""
  end.

(** [path.basename(s, path.extname(s))]. *)
Definition stem (s : string) : string :=
  String.substring 0 (String.length s - String.length (extname s)) s.

(** The [replace-ext] package, used by gulp-less and gulp-pug. *)
Definition replace_ext (ext : string) (s : string) : string :=
  stem s +:+ ext.

(** Apply [f] to the last segment (the file name) of a path. *)
Fixpoint map_basename (f : string -> string) (p : path) : path :=
  match p with
  | [] => []
  | [s] => [f s]
  | d :: p' => d :: map_basename f p'
  end.

End Path.

(** ** Glob patterns *)

Module Glob.

(** One segment of a glob.  The gulpfile only uses literal segments, [*],
    [**] and [*.ext] / [*.{e1,...,en}]. *)
Inductive seg :=
| Lit (s : string)
| Star
| StarExt (exts : list string)
| GlobStar.

Definition glob := list seg.

Definition show_seg (s : seg) : string :=
  match s with
  | Lit s => s
  | Star => "*"
  | StarExt [e] => "*." +:+ e
  | StarExt es => "*.{" +:+ String.concat "," es +:+ "}"
  | GlobStar => "**"
  end.

(** The pattern as it is written in the gulpfile. *)
Definition show (g : glob) : string := String.concat "/" (map show_seg g).

(** Dot files: without the [dot] option neither [*] nor [**] matches a
    segment that starts with a dot. *)
Definition hidden (s : string) : bool :=
  match s with
  | String c _ => Ascii.eqb c "."
  | EmptyString => false
  end.

Definition visible (s : string) : bool :=
  negb (hidden s) && negb (String.eqb s "").

Definition ends_with (suffix s : string) : bool :=
  String.prefix (String.rev suffix) (String.rev s).

Definition has_ext (exts : list string) (s : string) : bool :=
  existsb (fun e => ends_with ("." +:+ e) s) exts.

Definition seg_match (sp : seg) (s : string) : bool :=
  match sp with
  | Lit l => String.eqb l s
  | Star => visible s
  | StarExt exts => visible s && has_ext exts s
  | GlobStar => false
  end.

(** [**] stands for any number of visible directories, none included. *)
Fixpoint matches (g : glob) (p : path) : bool :=
  match g with
  | [] => match p with [] => true | _ => false end
  | GlobStar :: g' =>
      (fix skip (p : path) : bool :=
         matches g' p ||
         match p with
         | [] => false
         | s :: p' => visible s && skip p'
         end) p
  | sp :: g' =>
      match p with
      | [] => false
      | s :: p' => seg_match sp s && matches g' p'
      end
  end.

Definition matches_any (gs : list glob) (p : path) : bool :=
  existsb (fun g => matches g p) gs.

Fixpoint literal_prefix (g : glob) : path :=
  match g with
  | Lit s :: g' => s :: literal_prefix g'
  | _ => []
  end.

(** A glob without a wildcard names one file ([is-glob] says no). *)
Definition singular (g : glob) : bool :=
  forallb (fun s => match s with Lit _ => true | _ => false end) g.

(** The [glob-parent] package: drop the last segment, then everything from
    the first magic segment on.  vinyl-fs uses it as the default [base]. *)
Definition parent (g : glob) : path := literal_prefix (removelast g).

End Glob.

Import Glob.


(** ** Task names and compositions *)

(** The functions of the gulpfile, as gulp knows them (by name). *)
Inductive taskname :=
| Clean | Copy | Html | Style | Images | BuildJs | Reload | Deploy | Serve.

Global Instance taskname_eq_dec : EqDecision taskname.
Proof. solve_decision. Defined.

(** What [series(...)] and [parallel(...)] build. *)
Inductive comp :=
| task (n : taskname)
| series (cs : list comp)
| parallel (cs : list comp).

(** ** The world a task runs in *)

(** Options of [server.init] (browser-sync). *)
Record server_options := {
  server : path;
  startPath : string;
  notify : bool;
  open : bool;
  cors : bool;
  ui : bool
}.

(** Event names of chokidar, to which [watch] subscribes. *)
Inductive event_name := add | addDir | change | unlink | unlinkDir | all.

Global Instance event_name_eq_dec : EqDecision event_name.
Proof. solve_decision. Defined.

(** One call of [watch(globs, {events, delay}, action)]. *)
Record watcher := {
  globs : list glob;
  events : list event_name;
  delay : nat;
  action : comp
}.

Record world := {
  fs : gmap path bytes;          (* files below the working directory *)
  written : list path;           (* the paths written by [dest], in order *)
  locked : list path;            (* files the process may not remove *)
  pushed : list path;            (* files piped into [server.stream()] *)
  reloads : nat;                 (* calls of [server.reload()] *)
  console : list (string * path);(* errors reported by gulp-plumber *)
  serving : option server_options;
  watchers : list watcher;
  published : list path          (* directories handed to gh-pages *)
}.

Definition set_fs (m : gmap path bytes) (w : world) : world :=
  {| fs := m;
     written := written w;
     locked := locked w;
     pushed := pushed w;
     reloads := reloads w;
     console := console w;
     serving := serving w;
     watchers := watchers w;
     published := published w |}.

Definition write (p : path) (c : bytes) (w : world) : world :=
  {| fs := <[p := c]> (fs w);
     written := written w ++ [p];
     locked := locked w;
     pushed := pushed w;
     reloads := reloads w;
     console := console w;
     serving := serving w;
     watchers := watchers w;
     published := published w |}.

Definition push (p : path) (w : world) : world :=
  {| fs := fs w;
     written := written w;
     locked := locked w;
     pushed := pushed w ++ [p];
     reloads := reloads w;
     console := console w;
     serving := serving w;
     watchers := watchers w;
     published := published w |}.

Definition count_reload (w : world) : world :=
  {| fs := fs w;
     written := written w;
     locked := locked w;
     pushed := pushed w;
     reloads := S (reloads w);
     console := console w;
     serving := serving w;
     watchers := watchers w;
     published := published w |}.

Definition report (plugin : string) (p : path) (w : world) : world :=
  {| fs := fs w;
     written := written w;
     locked := locked w;
     pushed := pushed w;
     reloads := reloads w;
     console := console w ++ [(plugin, p)];
     serving := serving w;
     watchers := watchers w;
     published := published w |}.

Definition init_server (o : server_options) (w : world) : world :=
  {| fs := fs w;
     written := written w;
     locked := locked w;
     pushed := pushed w;
     reloads := reloads w;
     console := console w;
     serving := Some o;
     watchers := watchers w;
     published := published w |}.

Definition add_watcher (r : watcher) (w : world) : world :=
  {| fs := fs w;
     written := written w;
     locked := locked w;
     pushed := pushed w;
     reloads := reloads w;
     console := console w;
     serving := serving w;
     watchers := watchers w ++ [r];
     published := published w |}.

Definition publish (d : path) (w : world) : world :=
  {| fs := fs w;
     written := written w;
     locked := locked w;
     pushed := pushed w;
     reloads := reloads w;
     console := console w;
     serving := serving w;
     watchers := watchers w;
     published := published w ++ [d] |}.

(** How a task ends, as gulp sees it: the promise resolved, the stream ended
    or the callback was called without error ([Done]); one of them carried
    an error ([Failed]); or completion is never signalled ([Pending]). *)
Inductive result := Done | Failed | Pending.

Definition gulp_task := world -> result * world.

(** ** Streams of vinyl files *)

Record vinyl := {
  base : path;
  relative : path;
  contents : bytes
}.

Definition vpath (v : vinyl) : path := base v ++ relative v.

Definition set_contents (c : bytes) (v : vinyl) : vinyl :=
  {| base := base v; relative := relative v; contents := c |}.

Definition set_relative (r : path) (v : vinyl) : vinyl :=
  {| base := base v; relative := r; contents := contents v |}.

(** What leaves a plugin for one file that entered it: the file, possibly
    changed ([Pass], with the flag that says whether gulp-plumber guards the
    rest of the chain); nothing, after an error that plumber swallowed
    ([Drop]); or an unhandled stream error ([Fatal]). *)
Inductive reply :=
| Pass (plumbed : bool) (v : vinyl)
| Drop
| Fatal.

Definition plugin := bool -> vinyl -> world -> reply * world.

(** A stream: the files that [src] reads, whether [src] raises an error
    before any file is read, and what the plugins do to one file. *)
Record stream := {
  source : world -> list vinyl;
  not_found : world -> bool;
  chain : plugin
}.

(** [s.pipe(p)] *)
Definition pipe (s : stream) (p : plugin) : stream :=
  {| source := source s;
     not_found := not_found s;
     chain := fun pl v w =>
       match chain s pl v w with
       | (Pass pl' v', w') => p pl' v' w'
       | (r, w') => (r, w')
       end |}.

Notation "s .| p" := (pipe s p) (at level 50, left associativity).

(** A plugin that rewrites the file with [f] and emits an error when [f]
    has no result. *)
Definition through (name : string) (f : world -> vinyl -> option vinyl) : plugin :=
  fun pl v w =>
    match f w v with
    | Some v' => (Pass pl v', w)
    | None => if pl then (Drop, report name (vpath v) w) else (Fatal, w)
    end.

(** The vinyl file that [src] makes of the file at [p]: [base] is the one
    given, or else the parent of the first glob that matches. *)
Definition vinyl_of (gs : list glob) (b : option path) (p : path) (c : bytes) : vinyl :=
  let b' := match b with
            | Some b' => b'
            | None => match List.find (fun g => matches g p) gs with
                      | Some g => parent g
                      | None => []
                      end
            end in
  {| base := b'; relative := Path.relative b' p; contents := c |}.

(** Some file matches the glob. *)
Definition found (g : glob) (m : gmap path bytes) : bool :=
  existsb (fun kv : path * bytes => matches g kv.1) (map_to_list m).

(** [src(globs, {base})]: the files of the file system that match one of the
    globs.  A glob without a wildcard has to match: when there is no such
    file, the stream raises the error "File not found with singular glob"
    ([allowEmpty] is not set).  The error comes from the stream of [src]
    itself, before any plugin, so a [plumber()] further down does not see
    it.  (In the gulpfile a glob without a wildcard is always the only glob
    of its [src].) *)
Definition src (gs : list glob) (b : option path) : stream :=
  {| source := fun w =>
       map (fun kv => vinyl_of gs b kv.1 kv.2)
           (map_to_list (filter (fun kv => Is_true (matches_any gs kv.1)) (fs w)));
     not_found := fun w =>
       existsb (fun g => singular g && negb (found g (fs w))) gs;
     chain := fun pl v w => (Pass pl v, w) |}.

(** [dest(dir)]: write the file below [dir] at its relative path; the file
    goes on with [dir] as its base. *)
Definition dest (dir : path) : plugin :=
  fun pl v w =>
    (Pass pl {| base := dir; relative := relative v; contents := contents v |},
     write (dir ++ relative v) (contents v) w).

(** [plumber()]: from here on errors are reported and the stream goes on. *)
Definition plumber : plugin := fun _ v w => (Pass true v, w).

(** [rename({suffix})]: the suffix goes between the stem and the extension of
    the file name. *)
Definition rename (suffix : string) : plugin :=
  through "gulp-rename" (fun _ v =>
    Some (set_relative
            (Path.map_basename
               (fun s => Path.stem s +:+ suffix +:+ Path.extname s) (relative v))
            v)).

(** [server.stream()]: tell the connected browsers about the file. *)
Definition server_stream : plugin :=
  fun pl v w => (Pass pl v, push (vpath v) w).

(** Running a stream to its end: the files go through the chain one after
    the other.  An unhandled error on one file makes the stream fail; the
    other files, which [src] has read by then, still go through the chain
    and are written. *)
Fixpoint feed (k : plugin) (vs : list vinyl) (w : world) : result * world :=
  match vs with
  | [] => (Done, w)
  | v :: vs' =>
      match k false v w with
      | (Fatal, w') => (Failed, (feed k vs' w').2)
      | (_, w') => feed k vs' w'
      end
  end.

(** A task that returns a stream is complete when the stream has ended; it
    fails when [src] raises its error, and then no file goes through the
    chain. *)
Definition returns (s : stream) : gulp_task :=
  fun w =>
    if not_found s w then (Failed, w)
    else feed (chain s) (source s w) w.

(** [del(dir)]: remove [dir] and all below it; the promise is rejected when
    an entry cannot be removed, and resolved otherwise (also when there was
    nothing to remove). *)
Definition del (dir : path) : gulp_task :=
  fun w =>
    let stuck p := Path.under dir p && bool_decide (p ∈ locked w) in
    let m := filter (fun kv => Is_true (negb (Path.under dir kv.1) || stuck kv.1)) (fs w) in
    (if bool_decide (map_Forall (fun p _ => stuck p = false) (fs w))
     then Done else Failed,
     set_fs m w).

(** ** The delegated tools *)

Inductive svgo_plugin :=
| removeViewBox (on : bool)
| convertColors_shorthex (on : bool).

Inductive imagemin_plugin :=
| optipng (optimizationLevel : nat)
| jpegtran (progressive : bool)
| svgo (plugins : list svgo_plugin).

(** The configuration handed to [webpackStream]. *)
Record webpack_options := {
  mode : string;
  output_filename : string;
  rule_test : string;
  rule_exclude : string;
  rule_loader : string;
  preset : string;
  targets_browsers : list string;
  debug : bool;
  corejs : string;
  useBuiltIns : string;
  minimize : bool
}.

(** What the third-party tools compute.  [None] is an error of the tool.
    The compilers that follow references to other files (pug includes, less
    imports, the module graph of webpack) read the file system. *)
Record toolchain := {
  pug_render : gmap path bytes -> path -> bytes -> option bytes;
  html_prettify : string -> nat -> bytes -> option bytes;
  less_render : gmap path bytes -> path -> bytes -> option bytes;
  autoprefix : list string -> bytes -> option bytes;
  csso : bytes -> option bytes;
  imagemin_run : imagemin_plugin -> bytes -> option bytes;
  webpack_bundle : webpack_options -> gmap path bytes -> path -> bytes -> option bytes;
  uglify_js : bytes -> option bytes;
  ghpages_publish : gmap path bytes -> path -> bool
}.

(** ** The gulpfile *)

Section Gulpfile.

Variable T : toolchain.

(** gulp-pug: the rendered page, with the extension [.html]. *)
Definition pug : plugin :=
  through "gulp-pug" (fun w v =>
    c ← pug_render T (fs w) (vpath v) (contents v);
    Some {| base := base v;
            relative := Path.map_basename (Path.replace_ext ".html") (relative v);
            contents := c |}).

Definition htmlprettify (indent_char : string) (indent_size : nat) : plugin :=
  through "gulp-html-prettify" (fun _ v =>
    c ← html_prettify T indent_char indent_size (contents v);
    Some (set_contents c v)).

(** gulp-less: the compiled stylesheet, with the extension [.css]. *)
Definition less : plugin :=
  through "gulp-less" (fun w v =>
    c ← less_render T (fs w) (vpath v) (contents v);
    Some {| base := base v;
            relative := Path.map_basename (Path.replace_ext ".css") (relative v);
            contents := c |}).

Definition autoprefixer (browsers : list string) : bytes -> option bytes :=
  autoprefix T browsers.

(** gulp-postcss runs its processors one after the other. *)
Definition postcss (processors : list (bytes -> option bytes)) : plugin :=
  through "gulp-postcss" (fun _ v =>
    c ← foldl (fun acc f => acc ≫= f) (Some (contents v)) processors;
    Some (set_contents c v)).

Definition minify : plugin :=
  through "gulp-csso" (fun _ v => c ← csso T (contents v); Some (set_contents c v)).

(** [imagemin.buffer(contents, {use})]: the plugins run one after the other
    on the buffer, and an error of one of them is the error of the whole. *)
Definition imagemin_buffer (use : list imagemin_plugin) (c : bytes) : option bytes :=
  foldl (fun acc p => acc ≫= imagemin_run T p) (Some c) use.

Definition imagemin (use : list imagemin_plugin) : plugin :=
  through "gulp-imagemin" (fun _ v =>
    c ← imagemin_buffer use (contents v);
    Some (set_contents c v)).

(** webpack-stream: the entry file is replaced by the bundle, a new file
    named after [output.filename]. *)
Definition webpackStream (o : webpack_options) : plugin :=
  through "webpack-stream" (fun w v =>
    c ← webpack_bundle T o (fs w) (vpath v) (contents v);
    Some {| base := []; relative := [output_filename o]; contents := c |}).

Definition uglify : plugin :=
  through "gulp-uglify" (fun _ v => c ← uglify_js T (contents v); Some (set_contents c v)).

Definition clean : gulp_task := del ["build"].

Definition copy : gulp_task :=
  returns (
    src [ [Lit "source"; Lit "fonts"; GlobStar; StarExt ["woff"; "woff2"; "eot"; "ttf"]] ]
        (Some ["source"])
      .| dest ["build"]).

Definition html : gulp_task :=
  returns (
    src [ [Lit "source"; Lit "pages"; StarExt ["pug"]] ] None
      .| plumber
      .| pug
      .| htmlprettify " " 2
      .| dest ["build"]
      .| server_stream).

Definition style : gulp_task :=
  returns (
    src [ [Lit "source"; Lit "less"; Lit "style.less"] ] None
      .| plumber
      .| less
      .| postcss [autoprefixer ["last 3 versions"]]
      .| dest ["build"; "css"]
      .| minify
      .| rename ".min"
      .| dest ["build"; "css"]
      .| server_stream).

Definition images : gulp_task :=
  returns (
    src [ [Lit "source"; Lit "img"; GlobStar; StarExt ["png"; "jpg"; "svg"]] ] None
      .| imagemin [ optipng 3;
                    jpegtran true;
                    svgo [removeViewBox false; convertColors_shorthex false] ]
      .| dest ["build"; "img"]).

Definition buildJs : gulp_task :=
  returns (
    src [ [Lit "source"; Lit "js"; Lit "script.js"] ] None
      .| plumber
      .| webpackStream
           {| mode := "production";
              output_filename := "script.js";
              rule_test := "\.(js)$";
              rule_exclude := "(node_modules)";
              rule_loader := "babel-loader";
              preset := "@babel/preset-env";
              targets_browsers := ["> 1%"; "last 3 versions"];
              debug := true;
              corejs := "3.0.0";
              useBuiltIns := "usage";
              minimize := false |}
      .| dest ["build"; "js"]
      .| uglify
      .| rename ".min"
      .| dest ["build"; "js"]).

(** [reload(done)]: [server.reload()], then [done()]. *)
Definition reload : gulp_task :=
  fun w => (Done, count_reload w).

(** [deploy(cb)]: the callback is handed to [ghpages.publish]. *)
Definition deploy : gulp_task :=
  fun w =>
    (if ghpages_publish T (fs w) ["build"] then Done else Failed,
     publish ["build"] w).

(** [watch(globs, {events, delay}, action)] *)
Definition watch (gs : list glob) (evs : list event_name) (d : nat)
    (a : comp) (w : world) : world :=
  add_watcher {| globs := gs; events := evs; delay := d; action := a |} w.

(** [serve()] takes no callback and returns nothing: gulp is never told
    that it is complete. *)
Definition serve : gulp_task :=
  fun w =>
    let w := init_server {| server := ["build"];
                            startPath := "index.html";
                            notify := false;
                            open := false;
                            cors := true;
                            ui := false |} w in
    let w := watch [ [Lit "source"; Lit "pages"; GlobStar; StarExt ["pug"]];
                     [Lit "source"; Lit "pug"; GlobStar; StarExt ["pug"]] ]
                   [add; change; unlink] 50
                   (series [task Html; task Reload]) w in
    let w := watch [ [Lit "source"; Lit "less"; GlobStar; StarExt ["less"]] ]
                   [add; change; unlink] 50
                   (series [task Style; task Reload]) w in
    let w := watch [ [Lit "source"; Lit "js"; GlobStar; StarExt ["js"]] ]
                   [add; change; unlink] 50
                   (series [task BuildJs; task Reload]) w in
    let w := watch [ [Lit "source"; Lit "img"; Star] ]
                   [all] 50
                   (series [task Images; task Reload]) w in
    (Pending, w).

(** The function behind each task name. *)
Definition body (n : taskname) : gulp_task :=
  match n with
  | Clean => clean
  | Copy => copy
  | Html => html
  | Style => style
  | Images => images
  | BuildJs => buildJs
  | Reload => reload
  | Deploy => deploy
  | Serve => serve
  end.

End Gulpfile.

Definition exports_build : comp :=
  series [ task Clean;
           parallel [task Copy; task Images];
           parallel [task Html; task Style; task BuildJs] ].

Definition exports_default : comp :=
  series [ task Clean;
           parallel [task Copy; task Images];
           parallel [task Html; task Style; task BuildJs];
           task Serve ].

(** ** Running a composition *)

(** What the function of a task hands to gulp to signal completion: a
    promise ([clean]), a stream (the five file tasks), the callback
    ([reload], [deploy]), or nothing at all ([serve]). *)
Inductive completion := Promise | Stream | Callback | Never.

Definition signal (n : taskname) : completion :=
  match n with
  | Clean => Promise
  | Copy | Html | Style | Images | BuildJs => Stream
  | Reload | Deploy => Callback
  | Serve => Never
  end.

Definition signals (n : taskname) : bool :=
  match signal n with Never => false | _ => true end.

(** The state of a composition while it runs. *)
Inductive run :=
| Waiting (n : taskname)
| Running (n : taskname)
| Ended (n : taskname) (ok : bool)
| InSeries (cur : run) (rest : list comp)
| InParallel (rs : list run).

(** Nothing has been started.  (gulp refuses an empty [series]; here it is
    complete at once.) *)
Fixpoint init (c : comp) : run :=
  match c with
  | task n => Waiting n
  | series [] => InParallel []
  | series (c :: cs) => InSeries (init c) cs
  | parallel cs => InParallel (map init cs)
  end.

(** [Some true]: complete; [Some false]: ended with an error; [None]: still
    running.  A series ends with the first error; a parallel composition
    reports the first error without waiting for the other tasks. *)
Fixpoint outcome (r : run) : option bool :=
  match r with
  | Waiting _ | Running _ => None
  | Ended _ ok => Some ok
  | InSeries cur rest =>
      match outcome cur, rest with
      | Some true, _ :: _ => None
      | o, _ => o
      end
  | InParallel rs =>
      if existsb (fun r => bool_decide (outcome r = Some false)) rs then Some false
      else if forallb (fun r => bool_decide (outcome r = Some true)) rs then Some true
      else None
  end.

(** What can be observed of a run. *)
Inductive label :=
| Start (n : taskname)
| Finish (n : taskname)      (* completion signalled, without error *)
| Fail (n : taskname)        (* completion signalled, with an error *)
| Next.                      (* a series moves on to its next element *)

Global Instance label_eq_dec : EqDecision label.
Proof. solve_decision. Defined.

(** All the steps a run can take.  A task that signals completion may do
    so with or without an error.  The tasks of a parallel composition
    interleave freely, and go on when one of them has failed; a series
    moves on only when its current element is complete, and not at all
    after an error. *)
Fixpoint steps (r : run) : list (label * run) :=
  match r with
  | Waiting n => [(Start n, Running n)]
  | Running n =>
      if signals n then [(Finish n, Ended n true); (Fail n, Ended n false)] else []
  | Ended _ _ => []
  | InSeries cur rest =>
      match outcome cur, rest with
      | Some true, c :: cs => [(Next, InSeries (init c) cs)]
      | _, _ => []
      end ++ map (fun '(l, cur') => (l, InSeries cur' rest)) (steps cur)
  | InParallel rs =>
      (fix each (before after : list run) : list (label * run) :=
         match after with
         | [] => []
         | r :: after' =>
             map (fun '(l, r') => (l, InParallel (rev_append before (r' :: after'))))
                 (steps r)
             ++ each (r :: before) after'
         end) [] rs
  end.

(** [reach r tr r']: the run [r] can become [r'], with the labels [tr]. *)
Inductive reach : run -> list label -> run -> Prop :=
| reach_refl r : reach r [] r
| reach_step r l r1 tr r2 :
    In (l, r1) (steps r) -> reach r1 tr r2 -> reach r (l :: tr) r2.

(** An exhaustive search: [P] holds of every trace that extends [tr] from
    [r], and no run is longer than [n] steps. *)
Fixpoint explore (P : list label -> run -> bool) (n : nat)
    (tr : list label) (r : run) : bool :=
  P tr r &&
  match n with
  | 0 => match steps r with [] => true | _ => false end
  | S n' => forallb (fun '(l, r') => explore P n' (tr ++ [l]) r') (steps r)
  end.

(** The effect of a run on the world.  The function of a task is applied
    when the task signals completion (or, for a task that never does, when
    it is started), and has to agree with the signal. *)
Section Effects.

Variable T : toolchain.

Definition apply_label (l : label) (w : world) : option world :=
  match l with
  | Start n =>
      if signals n then Some w
      else match body T n w with (Pending, w') => Some w' | _ => None end
  | Finish n => match body T n w with (Done, w') => Some w' | _ => None end
  | Fail n => match body T n w with (Failed, w') => Some w' | _ => None end
  | Next => Some w
  end.

Fixpoint apply_trace (tr : list label) (w : world) : option world :=
  match tr with
  | [] => Some w
  | l :: tr' => w' ← apply_label l w; apply_trace tr' w'
  end.

(** [c] runs from [w] to completion and leaves [w']. *)
Definition completes (c : comp) (w w' : world) : Prop :=
  exists tr r, reach (init c) tr r /\ outcome r = Some true /\
               apply_trace tr w = Some w'.

End Effects.

(** ** File watching *)

(** For a change of kind [k] chokidar emits the event [k] and the event
    [all]; there is no change of kind [all]. *)
Definition emitted (k : event_name) : list event_name :=
  match k with
  | all => []
  | _ => [k; all]
  end.

(** The watcher is subscribed to an event that a change of kind [k] emits. *)
Definition listens (r : watcher) (k : event_name) : bool :=
  existsb (fun e => bool_decide (e ∈ events r)) (emitted k).

(** The watcher runs its action for a change of kind [k] at path [p]. *)
Definition fires (r : watcher) (k : event_name) (p : path) : bool :=
  matches_any (globs r) p && listens r k.

Definition triggered (rs : list watcher) (k : event_name) (p : path) : list comp :=
  map action (List.filter (fun r => fires r k p) rs).

(** The tasks a composition is made of, and the stages of a series. *)
Fixpoint tasks_of (c : comp) : list taskname :=
  match c with
  | task n => [n]
  | series cs | parallel cs => flat_map tasks_of cs
  end.


(** The world of a gulp process that has just started. *)
Definition fresh (m : gmap path bytes) (lk : list path) : world :=
  {| fs := m; written := []; locked := lk; pushed := []; reloads := 0;
     console := []; serving := None; watchers := []; published := [] |}.

(** [a] occurs before every occurrence of [b] in [tr]. *)
Definition precedes (a b : label) (tr : list label) : Prop :=
  forall pre post, tr = pre ++ b :: post -> In a pre.

Fixpoint precedesb (a b : label) (seen : bool) (tr : list label) : bool :=
  match tr with
  | [] => true
  | l :: tr' =>
      (if bool_decide (l = b) then seen else true) &&
      precedesb a b (seen || bool_decide (l = a)) tr'
  end.




(** ** Notions used to state the properties *)

(** The files a stream writes when every file [v] is written at [key v]
    with the contents [val v]. *)
Definition writes (key : vinyl -> path) (val : vinyl -> bytes)
    (m : gmap path bytes) (vs : list vinyl) : gmap path bytes :=
  foldl (fun m v => <[key v := val v]> m) m vs.

(** Modelled from the spec: the contract of the delegated minifier, which
    is not part of the repository (gulp-csso): "the minified file's byte
    size is ≤ the unminified file's byte size". *)
Definition non_expanding (minifier : bytes -> option bytes) : Prop :=
  forall c c', minifier c = Some c' -> length c' <= length c.

(** Two file systems agree outside of the directory [d]. *)
Definition same_outside (d : path) (m m' : gmap path bytes) : Prop :=
  forall p, Path.under d p = false -> m !! p = m' !! p.

(** No file below the directory [d]. *)
Definition absent (d : path) (m : gmap path bytes) : Prop :=
  forall p, Path.under d p = true -> m !! p = None.

(** The file [q] below ['build'] is the output of a source that exists in
    [m]: the mirror of a font or of an image, the page of a template, or
    one of the two outputs of the stylesheet or of the script. *)
Definition built_from (m : gmap path bytes) (q : path) : Prop :=
  (exists rel,
     q = "build" :: rel /\
     matches [Lit "source"; Lit "fonts"; GlobStar; StarExt ["woff"; "woff2"; "eot"; "ttf"]]
             ("source" :: rel) = true /\
     is_Some (m !! ("source" :: rel))) \/
  (exists rel,
     q = "build" :: "img" :: rel /\
     matches [Lit "source"; Lit "img"; GlobStar; StarExt ["png"; "jpg"; "svg"]]
             ("source" :: "img" :: rel) = true /\
     is_Some (m !! ("source" :: "img" :: rel))) \/
  (exists b,
     q = ["build"; b +:+ ".html"] /\ visible b = true /\
     is_Some (m !! ["source"; "pages"; b +:+ ".pug"])) \/
  (In q [ ["build"; "css"; "style.css"]; ["build"; "css"; "style.min.css"] ] /\
   is_Some (m !! ["source"; "less"; "style.less"])) \/
  (In q [ ["build"; "js"; "script.js"]; ["build"; "js"; "script.min.js"] ] /\
   is_Some (m !! ["source"; "js"; "script.js"])).

(** What [html] has done for the page ['source/pages/b.pug'] between [w]
    and [w']: in a world [u] with the sources of [w], pug and html-prettify
    were run on the page; their result is in ['build/b.html'] and the file
    is among those written since [w], or their error is among those
    reported since [w]. *)
Definition page_compiled (T : toolchain) (w w' : world) (b : string) (c : bytes) : Prop :=
  exists u lw lc,
    same_outside ["build"] (fs u) (fs w) /\
    written w' = written w ++ lw /\
    console w' = console w ++ lc /\
    match pug_render T (fs u) ["source"; "pages"; b +:+ ".pug"] c with
    | None => ("gulp-pug", ["source"; "pages"; b +:+ ".pug"]) ∈ lc
    | Some c1 =>
        match html_prettify T " " 2 c1 with
        | None => ("gulp-html-prettify", ["source"; "pages"; b +:+ ".html"]) ∈ lc
        | Some h =>
            fs w' !! ["build"; b +:+ ".html"] = Some h /\
            ["build"; b +:+ ".html"] ∈ lw
        end
    end.

(** Between [w] and [w'] every file written is the output of a page of
    ['source/pages'], and every error reported is about such a page. *)
Definition only_pages (w w' : world) : Prop :=
  exists lw lc,
    written w' = written w ++ lw /\
    console w' = console w ++ lc /\
    (forall q, q ∈ lw ->
       exists b, q = ["build"; b +:+ ".html"] /\ visible b = true /\
                 is_Some (fs w !! ["source"; "pages"; b +:+ ".pug"])) /\
    (forall e, e ∈ lc ->
       exists b, visible b = true /\
                 is_Some (fs w !! ["source"; "pages"; b +:+ ".pug"]) /\
                 (e = ("gulp-pug", ["source"; "pages"; b +:+ ".pug"]) \/
                  e = ("gulp-html-prettify", ["source"; "pages"; b +:+ ".html"]))).

(** The compilers look at the sources only: what they compute does not
    depend on the files below ['build']. *)
Definition reads_sources_only (T : toolchain) : Prop :=
  forall m m', same_outside ["build"] m m' ->
    (forall p c, pug_render T m p c = pug_render T m' p c) /\
    (forall p c, less_render T m p c = less_render T m' p c) /\
    (forall o p c, webpack_bundle T o m p c = webpack_bundle T o m' p c).

(** The files outside ['build']. *)
Definition sources (m : gmap path bytes) : gmap path bytes :=
  filter (fun kv => Is_true (negb (Path.under ["build"] kv.1))) m.

(** On the project [m0], what the compilers make of its pages, of its
    stylesheet and of its script does not depend on the files below
    ['build']. *)
Definition sources_decide (T : toolchain) (m0 : gmap path bytes) : Prop :=
  forall m, same_outside ["build"] m0 m ->
    (forall name c,
       m0 !! ["source"; "pages"; name] = Some c ->
       pug_render T m ["source"; "pages"; name] c
       = pug_render T m0 ["source"; "pages"; name] c) /\
    (forall c,
       m0 !! ["source"; "less"; "style.less"] = Some c ->
       less_render T m ["source"; "less"; "style.less"] c
       = less_render T m0 ["source"; "less"; "style.less"] c) /\
    (forall o c,
       m0 !! ["source"; "js"; "script.js"] = Some c ->
       webpack_bundle T o m ["source"; "js"; "script.js"] c
       = webpack_bundle T o m0 ["source"; "js"; "script.js"] c).

(** The tools of [T] with the compilers shown the files outside ['build']
    only. *)
Definition on_sources (T : toolchain) : toolchain :=
  {| pug_render := fun m => pug_render T (sources m);
     html_prettify := html_prettify T;
     less_render := fun m => less_render T (sources m);
     autoprefix := autoprefix T;
     csso := csso T;
     imagemin_run := imagemin_run T;
     webpack_bundle := fun o m => webpack_bundle T o (sources m);
     uglify_js := uglify_js T;
     ghpages_publish := ghpages_publish T |}.

(** The part of the output tree that a task writes to. *)
Definition region (n : taskname) (q : path) : bool :=
  match n, q with
  | Clean, _ => Path.under ["build"] q
  | Copy, _ => Path.under ["build"; "fonts"] q
  | Images, _ => Path.under ["build"; "img"] q
  | Html, [b; _] => String.eqb b "build"
  | Style, [b; d; _] => String.eqb b "build" && String.eqb d "css"
  | BuildJs, [b; d; _] => String.eqb b "build" && String.eqb d "js"
  | _, _ => false
  end.

(** Every file is the same in [u] and [u'], or is in [u] as it was in [m]
    and in [u'] as it was in [m']: the same files were written from [m] to
    [u] as from [m'] to [u']. *)
Definition alike (m m' u u' : gmap path bytes) : Prop :=
  forall q, u !! q = u' !! q \/ (u !! q = m !! q /\ u' !! q = m' !! q).

(** An action that writes in the region [R] only, and that does the same in
    two worlds with the same sources. *)
Definition tame {X} (R : path -> bool) (A : world -> X * world) : Prop :=
  (forall w q, R q = false -> fs (A w).2 !! q = fs w !! q) /\
  (forall w w', same_outside ["build"] (fs w) (fs w') ->
     (A w).1 = (A w').1 /\ alike (fs w) (fs w') (fs (A w).2) (fs (A w').2)).

(** A plugin that is tame on the files that satisfy [pre], and hands on
    files that satisfy [post]. *)
Definition tame_plugin (pre post : vinyl -> Prop) (R : path -> bool)
    (k : plugin) : Prop :=
  forall pl v, pre v ->
    tame R (k pl v) /\
    forall w pl' v', (k pl v w).1 = Pass pl' v' -> post v'.

(** The region lies below ['build']. *)
Definition inside (R : path -> bool) : Prop :=
  forall q, R q = true -> Path.under ["build"] q = true.

(** The task that a label is about. *)
Definition names (l : label) : option taskname :=
  match l with
  | Start n | Finish n | Fail n => Some n
  | Next => None
  end.

(** The tasks whose completion a trace records, in this order. *)
Fixpoint finished (tr : list label) : list taskname :=
  match tr with
  | [] => []
  | Finish n :: tr' => n :: finished tr'
  | _ :: tr' => finished tr'
  end.

(** A label of a run without errors and without [serve]. *)
Definition quiet (l : label) : bool :=
  match l with
  | Fail _ => false
  | Start n => signals n
  | _ => true
  end.

(** Running tasks one after the other, each to its completion. *)
Fixpoint run_tasks (T : toolchain) (ns : list taskname) (w : world) : option world :=
  match ns with
  | [] => Some w
  | n :: ns' =>
      match body T n w with
      | (Done, w') => run_tasks T ns' w'
      | _ => None
      end
  end.

(** The orders in which the tasks of [exports.build] can complete. *)
Definition build_orders : list (list taskname) :=
  s2 ← [[Copy; Images]; [Images; Copy]];
  s3 ← [[Html; Style; BuildJs]; [Html; BuildJs; Style]; [Style; Html; BuildJs];
        [Style; BuildJs; Html]; [BuildJs; Html; Style]; [BuildJs; Style; Html]];
  [Clean :: s2 ++ s3].

(** A label that a run has when [clean] failed: nothing but [clean] was
    started. *)
Definition only_clean (l : label) : bool :=
  match l with
  | Start n => bool_decide (n = Clean)
  | _ => true
  end.

(** ** A small project to run the tasks on *)

(** The signature of a PNG file with nothing after it: a file that the PNG
    optimizer cannot read. *)
Definition truncated_png : bytes :=
  [Byte.x89; Byte.x50; Byte.x4e; Byte.x47; Byte.x0d; Byte.x0a; Byte.x1a; Byte.x0a].

Definition is_truncated_png (c : bytes) : bool :=
  match c with
  | [Byte.x89; Byte.x50; Byte.x4e; Byte.x47; Byte.x0d; Byte.x0a; Byte.x1a; Byte.x0a] => true
  | _ => false
  end.

(** A toolchain to run the tasks on: every tool hands its input on, except
    that the stylesheet and script minifiers drop the spaces (byte 0x20),
    that pug rejects an empty template and that the image optimizers fail
    on the truncated PNG file. *)
Definition no_space (b : Byte.byte) : bool :=
  match b with Byte.x20 => false | _ => true end.

Definition sample_tools : toolchain :=
  {| pug_render := fun _ _ c => match c with [] => None | _ => Some c end;
     html_prettify := fun _ _ c => Some c;
     less_render := fun _ _ c => Some c;
     autoprefix := fun _ c => Some c;
     csso := fun c => Some (List.filter no_space c);
     imagemin_run := fun _ c => if is_truncated_png c then None else Some c;
     webpack_bundle := fun _ _ _ c => Some c;
     uglify_js := fun c => Some (List.filter no_space c);
     ghpages_publish := fun _ _ => true |}.

Definition sample_less : bytes :=
  String.list_byte_of_string "a { color: red }".

Definition sample_sources : gmap path bytes :=
  list_to_map
    [ (["source"; "pages"; "index.pug"], String.list_byte_of_string "p hello");
      (["source"; "pug"; "blocks"; "header.pug"], String.list_byte_of_string "h1 title");
      (["source"; "less"; "style.less"], sample_less);
      (["source"; "js"; "script.js"], String.list_byte_of_string "let x = 1");
      (["source"; "img"; "icons"; "logo.png"], [Byte.x89; Byte.x50]);
      (["source"; "fonts"; "roboto"; "regular.woff2"], [Byte.x77; Byte.x4f]) ].

Definition sample_world : world := fresh sample_sources [].

(** Two complete runs of [exports.build], with the tasks of the stages
    completing in different orders. *)
Definition sample_run : list label :=
  [ Start Clean; Finish Clean; Next;
    Start Copy; Start Images; Finish Copy; Finish Images; Next;
    Start Html; Start Style; Start BuildJs;
    Finish Html; Finish Style; Finish BuildJs ].

Definition sample_rerun : list label :=
  [ Start Clean; Finish Clean; Next;
    Start Copy; Start Images; Finish Images; Finish Copy; Next;
    Start Html; Start Style; Start BuildJs;
    Finish BuildJs; Finish Style; Finish Html ].

Definition sample_built : world :=
  default sample_world (apply_trace sample_tools sample_run sample_world).

Definition sample_rebuilt : world :=
  default sample_built (apply_trace sample_tools sample_rerun sample_built).

(** The sample toolchain with minifiers that fail on every input. *)
Definition failing_minifiers : toolchain :=
  {| pug_render := pug_render sample_tools;
     html_prettify := html_prettify sample_tools;
     less_render := less_render sample_tools;
     autoprefix := autoprefix sample_tools;
     csso := fun _ => None;
     imagemin_run := imagemin_run sample_tools;
     webpack_bundle := webpack_bundle sample_tools;
     uglify_js := fun _ => None;
     ghpages_publish := ghpages_publish sample_tools |}.

(** The sample toolchain with a template compiler that follows an include
    into the output tree: the page gets the compiled stylesheet,
    ['build/css/style.css'], appended when the file is there. *)
Definition leaky_tools : toolchain :=
  {| pug_render := fun m _ c =>
       Some (c ++ default [] (m !! ["build"; "css"; "style.css"]));
     html_prettify := html_prettify sample_tools;
     less_render := less_render sample_tools;
     autoprefix := autoprefix sample_tools;
     csso := csso sample_tools;
     imagemin_run := imagemin_run sample_tools;
     webpack_bundle := webpack_bundle sample_tools;
     uglify_js := uglify_js sample_tools;
     ghpages_publish := ghpages_publish sample_tools |}.

Definition leaky_built : world :=
  default sample_world (apply_trace leaky_tools sample_run sample_world).

Definition leaky_rebuilt : world :=
  default leaky_built (apply_trace leaky_tools sample_rerun leaky_built).

(** The traces of [series(t, reload)], the action of a watcher. *)
Definition watch_runs (t : taskname) : list (list label) :=
  [ [];
    [Start t];
    [Start t; Fail t];
    [Start t; Finish t];
    [Start t; Finish t; Next];
    [Start t; Finish t; Next; Start Reload];
    [Start t; Finish t; Next; Start Reload; Fail Reload];
    [Start t; Finish t; Next; Start Reload; Finish Reload] ].

(** * Properties *)

Local Arguments visible : simpl never.

(** A closed statement, conjunct by conjunct, by evaluation. *)
Ltac evaluate :=
  cbv zeta;
  repeat match goal with |- _ /\ _ => split end;
  vm_compute; reflexivity.

(** Unfold the plugins of a chain applied to a file. *)
Ltac plugins :=
  unfold pug, htmlprettify, less, postcss, autoprefixer, minify, imagemin,
    webpackStream, uglify, rename, dest, plumber, server_stream, through,
    vinyl_of, vpath, set_contents, set_relative;
  cbn.

(** ** Globs *)

Lemma matches_lit s g p : matches (Lit s :: g) (s :: p) = matches g p.
Proof. simpl. by rewrite String.eqb_refl. Qed.

Lemma matches_lit_inv s g x p :
  matches (Lit s :: g) (x :: p) = true -> x = s /\ matches g p = true.
Proof.
  simpl. intros [Hs Hg]%andb_prop. split; [|done].
  symmetry. by apply String.eqb_eq.
Qed.

Lemma matches_globstar_here g p :
  matches g p = true -> matches (GlobStar :: g) p = true.
Proof. intros H. destruct p; simpl; by rewrite H. Qed.

Lemma matches_globstar_dir g d p :
  visible d = true ->
  matches (GlobStar :: g) p = true -> matches (GlobStar :: g) (d :: p) = true.
Proof.
  intros Hd H. change (matches (GlobStar :: g) (d :: p))
    with (matches g (d :: p) || (visible d && matches (GlobStar :: g) p)).
  rewrite Hd, H. by rewrite orb_true_r.
Qed.

(** [**] spans any number of visible directories. *)
Lemma matches_globstar_dirs g ds p :
  forallb visible ds = true ->
  matches g p = true -> matches (GlobStar :: g) (ds ++ p) = true.
Proof.
  induction ds as [|d ds IH]; simpl app; intros Hds Hg.
  - by apply matches_globstar_here.
  - simpl in Hds. apply andb_prop in Hds as [Hd Hds].
    apply matches_globstar_dir; auto.
Qed.

Lemma matches_globstar_inv g p :
  matches (GlobStar :: g) p = true ->
  exists ds q, p = ds ++ q /\ forallb visible ds = true /\ matches g q = true.
Proof.
  induction p as [|d p IH].
  - simpl. rewrite orb_false_r. intros H. by exists [], [].
  - change (matches (GlobStar :: g) (d :: p))
      with (matches g (d :: p) || (visible d && matches (GlobStar :: g) p)).
    intros [H|[Hd H]%andb_prop]%orb_prop.
    + by exists [], (d :: p).
    + destruct (IH H) as (ds & q & -> & Hds & Hq).
      exists (d :: ds), q. simpl. by rewrite Hd, Hds.
Qed.

(** ** Runs *)

Lemma explore_sound P n tr r :
  explore P n tr r = true ->
  forall tr' r', reach r tr' r' -> P (tr ++ tr') r' = true.
Proof.
  revert tr r. induction n as [|n IH]; intros tr r H tr' r' Hr;
    simpl in H; apply andb_prop in H as [HP H].
  - inversion Hr; subst.
    + by rewrite app_nil_r.
    + destruct (steps r); [contradiction | discriminate].
  - inversion Hr as [|? l r1 tr1 ? Hin Hr1]; subst.
    + by rewrite app_nil_r.
    + rewrite forallb_forall in H. specialize (H _ Hin). simpl in H.
      rewrite (app_assoc tr [l] tr1 : tr ++ l :: tr1 = (tr ++ [l]) ++ tr1).
      eapply IH; eauto.
Qed.

Lemma explore_init P n c :
  explore P n [] (init c) = true ->
  forall tr r, reach (init c) tr r -> P tr r = true.
Proof. intros H tr r Hr. apply (explore_sound P n [] _ H _ _ Hr). Qed.

Lemma reach_app r1 tr1 r2 tr2 r3 :
  reach r1 tr1 r2 -> reach r2 tr2 r3 -> reach r1 (tr1 ++ tr2) r3.
Proof.
  induction 1 as [|r l r1 tr r2 Hin _ IH]; simpl; [done|].
  intros H. eapply reach_step; eauto.
Qed.

Lemma precedesb_spec a b seen tr :
  precedesb a b seen tr = true ->
  forall pre post, tr = pre ++ b :: post -> seen = true \/ In a pre.
Proof.
  revert seen. induction tr as [|l tr IH]; intros seen H pre post E.
  - by destruct pre.
  - simpl in H. apply andb_prop in H as [Hl H].
    destruct pre as [|x pre]; simpl in E; injection E as -> ->.
    + left. by rewrite bool_decide_true in Hl.
    + destruct (IH _ H pre post eq_refl) as [Hs|Hin].
      * apply orb_prop in Hs as [Hs|Hs]; [by left|].
        right. left. apply bool_decide_eq_true in Hs. done.
      * right. by right.
Qed.

Lemma precedesb_sound a b tr :
  precedesb a b false tr = true -> precedes a b tr.
Proof.
  intros H pre post E.
  by destruct (precedesb_spec _ _ _ _ H pre post E).
Qed.


(** ** The build pipelines *)




(** ** The watchers of [serve] *)

Lemma sequence_ordered a b :
  a <> b ->
  forall tr r, reach (init (series [task a; task b])) tr r ->
    precedes (Finish a) (Start b) tr.
Proof.
  intros Hab tr r Hr. apply precedesb_sound.
  refine (explore_init (fun tr _ => precedesb (Finish a) (Start b) false tr) 6 _ _ tr r Hr).
  destruct a, b; try congruence; vm_compute; reflexivity.
Qed.

(** C3: [serve] starts the static server on ['build/'] and registers exactly
    four watchers, each with a delay of 50 ms and a series of two tasks that
    ends in [reload]: templates run [html], stylesheets [style], scripts
    [buildJs] and images [images].  The first three are subscribed to
    [add], [change] and [unlink], the image watcher to every kind of
    change. *)
Theorem serve_registers_four_watchers (w : world) :
  (server <$> serving (serve w).2) = Some ["build"] /\
  exists r1 r2 r3 r4,
    watchers (serve w).2 = watchers w ++ [r1; r2; r3; r4] /\
    Forall (fun r => delay r = 50) [r1; r2; r3; r4] /\
    (map Glob.show (globs r1) = ["source/pages/**/*.pug"; "source/pug/**/*.pug"] /\
     action r1 = series [task Html; task Reload]) /\
    (map Glob.show (globs r2) = ["source/less/**/*.less"] /\
     action r2 = series [task Style; task Reload]) /\
    (map Glob.show (globs r3) = ["source/js/**/*.js"] /\
     action r3 = series [task BuildJs; task Reload]) /\
    (map Glob.show (globs r4) = ["source/img/*"] /\
     action r4 = series [task Images; task Reload]) /\
    Forall (fun r => forall k, listens r k = true <-> In k [add; change; unlink])
           [r1; r2; r3] /\
    (forall k, listens r4 k = true <-> k <> all) /\
    Forall (fun r => exists t, action r = series [task t; task Reload] /\
              forall tr s, reach (init (action r)) tr s ->
                precedes (Finish t) (Start Reload) tr)
           [r1; r2; r3; r4].
Proof.
  split; [reflexivity|].
  do 4 eexists. split.
  { unfold serve, watch, add_watcher; simpl.
    repeat rewrite <- app_assoc. simpl. reflexivity. }
  split; [repeat (constructor; [reflexivity|]); constructor|].
  do 4 (split; [split; reflexivity|]).
  split; [|split].
  - repeat (constructor;
      [intros k; destruct k; vm_compute; intuition congruence|]).
    constructor.
  - intros k; destruct k; vm_compute; intuition congruence.
  - repeat (constructor;
      [eexists; (split; [reflexivity|]); by apply sequence_ordered|]).
    constructor.
Qed.

(** ** Worlds and streams *)

Lemma writes_snoc key val m vs v :
  writes key val m (vs ++ [v]) = <[key v := val v]> (writes key val m vs).
Proof. unfold writes. by rewrite foldl_app. Qed.

Lemma writes_lookup_other key val m vs q :
  (forall v, v ∈ vs -> key v <> q) ->
  writes key val m vs !! q = m !! q.
Proof.
  induction vs as [|v vs IH] using rev_ind; intros H; [done|].
  rewrite writes_snoc, lookup_insert_ne.
  - apply IH. intros v' Hv'. apply H. apply elem_of_app. by left.
  - apply H. apply elem_of_app. right. by apply list_elem_of_singleton.
Qed.

Lemma writes_lookup key val m vs v :
  v ∈ vs ->
  (forall v', v' ∈ vs -> key v' = key v -> val v' = val v) ->
  writes key val m vs !! key v = Some (val v).
Proof.
  induction vs as [|x vs IH] using rev_ind; intros Hv H.
  - by apply elem_of_nil in Hv.
  - rewrite writes_snoc.
    destruct (decide (key x = key v)) as [E|E].
    + rewrite E, lookup_insert_eq. f_equal. apply H; [|done].
      apply elem_of_app. right. by apply list_elem_of_singleton.
    + rewrite lookup_insert_ne by done.
      apply elem_of_app in Hv as [Hv|Hv].
      * apply IH; [done|]. intros v' Hv'. apply H. apply elem_of_app. by left.
      * apply list_elem_of_singleton in Hv. by subst.
Qed.

Lemma writes_lookup_Some key val m vs q c :
  writes key val m vs !! q = Some c ->
  m !! q = Some c \/ exists v, v ∈ vs /\ key v = q /\ val v = c.
Proof.
  induction vs as [|x vs IH] using rev_ind; [by left|].
  rewrite writes_snoc. destruct (decide (key x = q)) as [E|E].
  - rewrite E, lookup_insert_eq. intros [= <-]. right. exists x.
    split; [|done]. apply elem_of_app. right. by apply list_elem_of_singleton.
  - rewrite lookup_insert_ne by done. intros [?|(v & ? & ? & ?)]%IH; [by left|].
    right. exists v. split; [|done]. apply elem_of_app. by left.
Qed.

(** A chain that writes every file once and never fails. *)
Lemma feed_writes k key val vs w :
  (forall v w, v ∈ vs ->
     (k false v w).1 <> Fatal /\
     fs (k false v w).2 = <[key v := val v]> (fs w)) ->
  (feed k vs w).1 = Done /\
  fs (feed k vs w).2 = writes key val (fs w) vs.
Proof.
  revert w. induction vs as [|v vs IH]; intros w H; [done|].
  simpl. destruct (H v w) as [Hr Hfs]; [by left|].
  destruct (IH (k false v w).2) as [IH1 IH2].
  { intros v' w' Hv'. apply H. by right. }
  destruct (k false v w) as [r w']. simpl in *. rewrite Hfs in IH2.
  by destruct r.
Qed.

(** An unhandled error on one file makes the stream fail. *)
Lemma feed_fatal k vs w v :
  v ∈ vs -> (forall w, (k false v w).1 = Fatal) -> (feed k vs w).1 = Failed.
Proof.
  revert w. induction vs as [|x vs IH]; intros w Hv H.
  - by apply elem_of_nil in Hv.
  - simpl. destruct (k false x w) as [r w'] eqn:E.
    destruct r; try done;
      (apply elem_of_cons in Hv as [->|Hv];
       [specialize (H w); rewrite E in H; discriminate | by apply IH]).
Qed.

(** A chain without unhandled errors ends well. *)
Lemma feed_never_fatal k vs w :
  (forall v w, (k false v w).1 <> Fatal) -> (feed k vs w).1 = Done.
Proof.
  intros Hok. revert w. induction vs as [|v vs IH]; intros w; [done|].
  simpl. specialize (Hok v w). destruct (k false v w) as [r w'].
  destruct r; simpl in *; auto; done.
Qed.


(** What every step of the chain keeps is kept by the stream. *)
Lemma feed_keeps (Q : world -> Prop) k vs w :
  (forall v w, v ∈ vs -> Q w -> Q (k false v w).2) ->
  Q w -> Q (feed k vs w).2.
Proof.
  revert w. induction vs as [|x vs IH]; intros w H Hw; [done|].
  simpl. pose proof (H x w (list_elem_of_here _ _) Hw) as Hx.
  destruct (k false x w) as [r w']. simpl in Hx.
  assert (Q (feed k vs w').2).
  { apply IH; [|done]. intros v' w'' Hv'. apply H. by right. }
  by destruct r.
Qed.

(** A stream whose [src] finds its files is run to its end. *)
Lemma returns_found s w :
  not_found s w = false -> returns s w = feed (chain s) (source s w) w.
Proof. unfold returns. by intros ->. Qed.

(** What every step of the chain keeps is kept by the task. *)
Lemma returns_keeps (Q : world -> Prop) s w :
  (forall v u, v ∈ source s w -> Q u -> Q (chain s false v u).2) ->
  Q w -> Q (returns s w).2.
Proof.
  intros H Hw. unfold returns. destruct (not_found s w); [done|].
  by apply feed_keeps.
Qed.

Lemma elem_of_source gs b w v :
  v ∈ source (src gs b) w <->
  exists p c, fs w !! p = Some c /\ matches_any gs p = true /\
              v = vinyl_of gs b p c.
Proof.
  simpl. rewrite list_elem_of_In, in_map_iff. split.
  - intros ([p c] & <- & Hin). apply list_elem_of_In in Hin.
    apply elem_of_map_to_list, map_lookup_filter_Some in Hin as [Hp Hm].
    simpl in Hm. exists p, c. split; [done|]. split; [|done].
    by apply Is_true_true.
  - intros (p & c & Hp & Hm & ->). exists (p, c). split; [done|].
    apply list_elem_of_In, elem_of_map_to_list, map_lookup_filter_Some.
    split; [done|]. simpl. by apply Is_true_true.
Qed.

(** ** [copy] *)

(** ['source/fonts/**/*.{woff,woff2,eot,ttf}'] *)
Local Abbreviation fonts_glob :=
  [Lit "source"; Lit "fonts"; GlobStar; StarExt ["woff"; "woff2"; "eot"; "ttf"]].

Lemma copy_spec w :
  (copy w).1 = Done /\
  fs (copy w).2 =
    writes (fun v => "build" :: relative v) contents (fs w)
      (source (src [fonts_glob] (Some ["source"])) w).
Proof.
  unfold copy, returns. cbn [chain source pipe].
  apply feed_writes. intros v w' _. by split.
Qed.

Lemma fonts_glob_source p :
  matches_any [fonts_glob] p = true -> exists rel, p = "source" :: rel.
Proof.
  unfold matches_any. cbn [existsb]. rewrite orb_false_r.
  destruct p as [|x p]; [done|].
  intros [-> _]%matches_lit_inv. by eexists.
Qed.

Lemma copy_source w v :
  v ∈ source (src [fonts_glob] (Some ["source"])) w ->
  exists rel, fs w !! ("source" :: rel) = Some (contents v) /\
              matches fonts_glob ("source" :: rel) = true /\
              relative v = rel.
Proof.
  intros (p & c & Hp & Hm & ->)%elem_of_source.
  destruct (fonts_glob_source _ Hm) as [rel ->]. exists rel.
  split; [done|]. split; [|reflexivity].
  unfold matches_any in Hm. cbn [existsb] in Hm. by rewrite orb_false_r in Hm.
Qed.

Lemma fonts_glob_matches ds name :
  forallb visible ds = true ->
  seg_match (StarExt ["woff"; "woff2"; "eot"; "ttf"]) name = true ->
  matches fonts_glob ("source" :: "fonts" :: ds ++ [name]) = true.
Proof.
  intros Hds Hn. rewrite !matches_lit.
  apply matches_globstar_dirs; [done|].
  cbn [matches]. by rewrite Hn.
Qed.

(** C6, as the code has it: [copy] selects the files with a font extension
    (woff, woff2, eot, ttf) anywhere below ['source/fonts'] and writes each
    of them, unchanged, at its path relative to ['source'] below ['build'];
    every other file is left as it was.  The task always succeeds. *)
Theorem copy_mirrors_fonts (w : world) :
  (copy w).1 = Done /\
  (forall ds name c,
     forallb visible ds = true ->
     seg_match (StarExt ["woff"; "woff2"; "eot"; "ttf"]) name = true ->
     fs w !! ("source" :: "fonts" :: ds ++ [name]) = Some c ->
     fs (copy w).2 !! ("build" :: "fonts" :: ds ++ [name]) = Some c) /\
  (forall q,
     (forall rel, matches fonts_glob ("source" :: rel) = true ->
                  is_Some (fs w !! ("source" :: rel)) -> q <> "build" :: rel) ->
     fs (copy w).2 !! q = fs w !! q) /\
  (forall q, is_Some (fs w !! q) -> is_Some (fs (copy w).2 !! q)).
Proof.
  destruct (copy_spec w) as [-> ->]. split; [done|].
  assert (Hsrc : forall v, v ∈ source (src [fonts_glob] (Some ["source"])) w ->
            exists rel, fs w !! ("source" :: rel) = Some (contents v) /\
                        matches fonts_glob ("source" :: rel) = true /\
                        relative v = rel).
  { intros v (p & c & Hp & Hm & ->)%elem_of_source.
    destruct (fonts_glob_source _ Hm) as [rel ->]. exists rel.
    split; [done|]. split; [|reflexivity].
    unfold matches_any in Hm. cbn [existsb] in Hm. by rewrite orb_false_r in Hm. }
  split; [|split].
  - intros ds name c Hds Hn Hc.
    set (p := "source" :: "fonts" :: ds ++ [name]).
    pose proof (fonts_glob_matches ds name Hds Hn) as Hm.
    set (v := vinyl_of [fonts_glob] (Some ["source"]) p c).
    assert (Hv : v ∈ source (src [fonts_glob] (Some ["source"])) w).
    { apply elem_of_source. exists p, c. split; [done|]. split; [|done].
      unfold matches_any. cbn [existsb]. fold p in Hm. by rewrite Hm. }
    assert (Hk : "build" :: relative v = "build" :: "fonts" :: ds ++ [name]).
    { reflexivity. }
    rewrite <- Hk.
    apply (writes_lookup (fun v => "build" :: relative v) contents); [done|].
    intros v' Hv' [= E].
    destruct (Hsrc _ Hv') as (rel' & Hc' & _ & Hrel').
    destruct (Hsrc _ Hv) as (rel & Hcv & _ & Hrel).
    assert (rel' = rel) as -> by congruence. congruence.
  - intros q Hq. apply writes_lookup_other. intros v Hv E.
    destruct (Hsrc _ Hv) as (rel & Hc & Hm & Hrel).
    apply (Hq rel Hm); [by eexists|]. by rewrite <- E, Hrel.
  - intros q [c Hc].
    destruct (writes (fun v => "build" :: relative v) contents (fs w)
                (source (src [fonts_glob] (Some ["source"])) w) !! q) eqn:E; [by eexists|].
    exfalso. revert E.
    generalize (source (src [fonts_glob] (Some ["source"])) w). intros vs.
    induction vs as [|x vs IH] using rev_ind; [cbn; congruence|].
    rewrite writes_snoc.
    destruct (decide ("build" :: relative x = q)) as [<-|Hne].
    + by rewrite lookup_insert_eq.
    + by rewrite lookup_insert_ne.
Qed.

(** The world of the counterexample of C6: a font file below ['source'] that
    is not below ['source/fonts']. *)
Example copy_skips_fonts_elsewhere :
  let w := fresh {[ ["source"; "img"; "icons.woff"] := [Byte.x77] ]} [] in
  fs w !! ["source"; "img"; "icons.woff"] = Some [Byte.x77] /\
  has_ext ["woff"; "woff2"; "eot"; "ttf"] "icons.woff" = true /\
  fs (copy w).2 !! ["build"; "img"; "icons.woff"] = None /\
  fs (copy w).2 = fs w.
Proof. evaluate. Qed.

(** ** [images] *)

(** ['source/img/**/*.{png,jpg,svg}'] *)
Local Abbreviation images_glob :=
  [Lit "source"; Lit "img"; GlobStar; StarExt ["png"; "jpg"; "svg"]].

Local Abbreviation images_use :=
  [optipng 3; jpegtran true; svgo [removeViewBox false; convertColors_shorthex false]].

Section Images.

Variable T : toolchain.

(** One image in the chain of [images]. *)
Lemma images_chain v w :
  chain (src [images_glob] None .| imagemin T images_use .| dest ["build"; "img"])
        false v w =
  match imagemin_buffer T images_use (contents v) with
  | Some c =>
      (Pass false {| base := ["build"; "img"]; relative := relative v; contents := c |},
       write ("build" :: "img" :: relative v) c w)
  | None => (Fatal, w)
  end.
Proof.
  cbn [chain pipe src]. unfold imagemin at 1, through.
  by destruct (imagemin_buffer T images_use (contents v)).
Qed.

Lemma images_source w v :
  v ∈ source (src [images_glob] None) w ->
  exists rel, fs w !! ("source" :: "img" :: rel) = Some (contents v) /\
              matches images_glob ("source" :: "img" :: rel) = true /\
              relative v = rel.
Proof.
  intros (p & c & Hp & Hm & ->)%elem_of_source.
  unfold matches_any in Hm. cbn [existsb] in Hm. rewrite orb_false_r in Hm.
  destruct p as [|x p]; [done|].
  pose proof Hm as [-> Hm1]%matches_lit_inv.
  destruct p as [|y p]; [done|].
  pose proof Hm1 as [-> _]%matches_lit_inv.
  exists p. split; [done|]. split; [done|].
  unfold vinyl_of. cbn [List.find]. rewrite Hm. reflexivity.
Qed.

Lemma images_glob_matches ds name :
  forallb visible ds = true ->
  seg_match (StarExt ["png"; "jpg"; "svg"]) name = true ->
  matches images_glob ("source" :: "img" :: ds ++ [name]) = true.
Proof.
  intros Hds Hn. rewrite !matches_lit.
  apply matches_globstar_dirs; [done|].
  cbn [matches]. by rewrite Hn.
Qed.

(** [images] when imagemin succeeds on every image: each image is written,
    optimized, below ['build/img'] at its path relative to ['source/img']. *)
Lemma images_all_optimized w :
  (forall p c, matches images_glob p = true -> fs w !! p = Some c ->
               is_Some (imagemin_buffer T images_use c)) ->
  (images T w).1 = Done /\
  forall rel c c',
    matches images_glob ("source" :: "img" :: rel) = true ->
    fs w !! ("source" :: "img" :: rel) = Some c ->
    imagemin_buffer T images_use c = Some c' ->
    fs (images T w).2 !! ("build" :: "img" :: rel) = Some c'.
Proof.
  intros Hall. unfold images. rewrite returns_found by reflexivity.
  set (key := fun v : vinyl => "build" :: "img" :: relative v).
  set (val := fun v : vinyl => default [] (imagemin_buffer T images_use (contents v))).
  destruct (feed_writes
    (chain (src [images_glob] None .| imagemin T images_use .| dest ["build"; "img"]))
    key val (source (src [images_glob] None) w) w) as [Hdone Hfs].
  { intros v w' Hv. rewrite images_chain.
      destruct (images_source _ _ Hv) as (rel & Hc & Hm & _).
      destruct (Hall _ _ Hm Hc) as [c' Hc'].
      subst val. cbn beta. rewrite Hc'. by split. }
  split; [done|]. intros rel c c' Hm Hc Hc'.
  cbn [source pipe]. rewrite Hfs.
  set (v := vinyl_of [images_glob] None ("source" :: "img" :: rel) c).
  assert (Hv : v ∈ source (src [images_glob] None) w).
  { apply elem_of_source. eexists _, _. split; [done|]. split; [|done].
    unfold matches_any. cbn [existsb]. by rewrite Hm. }
  destruct (images_source _ _ Hv) as (rel0 & _ & _ & Hrel).
  assert (relative v = rel) as Hr.
  { subst v. unfold vinyl_of. cbn [List.find]. rewrite Hm. reflexivity. }
  assert (Hval : val v = c').
  { subst val v. unfold vinyl_of. cbn [contents]. by rewrite Hc'. }
  assert (Hcv : contents v = c) by reflexivity. clearbody v.
  rewrite <- Hval. replace ("build" :: "img" :: rel) with (key v)
    by (subst key; cbn beta; by rewrite Hr).
  apply writes_lookup; [done|].
  intros v' Hv' E. subst key val. cbn beta in *. injection E as E.
  destruct (images_source _ _ Hv') as (rel' & Hc1 & _ & Hrel').
  assert (contents v' = contents v) as ->; [|done].
  assert (rel' = rel) as -> by congruence. congruence.
Qed.

(** [images] when imagemin fails on an image: there is no plumber in the
    chain, and the stream fails. *)
Lemma images_not_optimized w p c :
  matches images_glob p = true -> fs w !! p = Some c ->
  imagemin_buffer T images_use c = None ->
  (images T w).1 = Failed.
Proof.
  intros Hm Hc Hnone. unfold images. rewrite returns_found by reflexivity.
  apply (feed_fatal _ _ _ (vinyl_of [images_glob] None p c)).
  - apply elem_of_source. eexists _, _. split; [done|]. split; [|done].
    unfold matches_any. cbn [existsb]. by rewrite Hm.
  - intros w'. rewrite images_chain. cbn [contents vinyl_of]. by rewrite Hnone.
Qed.

End Images.

(** ** Tasks with one input file: [style] and [buildJs] *)

Lemma matches_literal p q : matches (map Lit p) q = true <-> q = p.
Proof.
  revert q. induction p as [|s p IH]; intros q.
  - destruct q; simpl; split; congruence.
  - destruct q as [|x q]; [simpl; split; congruence|].
    split.
    + intros [-> Hq]%matches_lit_inv. f_equal. by apply IH.
    + intros [= -> ->]. simpl map. rewrite matches_lit. by apply IH.
Qed.

(** [src] of a glob without magic: the one file, if it is there. *)
Lemma source_literal p b w c :
  fs w !! p = Some c ->
  source (src [map Lit p] b) w = [vinyl_of [map Lit p] b p c].
Proof.
  intros Hc. cbn [source src].
  replace (filter (fun kv : path * bytes => Is_true (matches_any [map Lit p] kv.1)) (fs w))
    with ({[ p := c ]} : gmap path bytes).
  { by rewrite map_to_list_singleton. }
  apply map_eq. intros q. destruct (decide (q = p)) as [->|Hne].
  - rewrite lookup_singleton_eq. symmetry. apply map_lookup_filter_Some.
    split; [done|]. cbn. apply Is_true_true.
    rewrite orb_false_r. by apply matches_literal.
  - rewrite lookup_singleton_ne by done. symmetry.
    apply map_lookup_filter_None. right. intros x _. cbn.
    rewrite orb_false_r. intros H%Is_true_true. by apply matches_literal in H.
Qed.

Lemma source_literal_none p b w :
  fs w !! p = None -> source (src [map Lit p] b) w = [].
Proof.
  intros Hc. cbn [source src].
  replace (filter (fun kv : path * bytes => Is_true (matches_any [map Lit p] kv.1)) (fs w))
    with (∅ : gmap path bytes).
  { by rewrite map_to_list_empty. }
  symmetry. apply map_empty. intros q. apply map_lookup_filter_None.
  destruct (decide (q = p)) as [->|Hne]; [by left|].
  right. intros x _. cbn.
  rewrite orb_false_r. intros H%Is_true_true. by apply matches_literal in H.
Qed.

(** A glob without a wildcard finds its file exactly when the file is
    there. *)
Lemma found_literal p m : found (map Lit p) m = true <-> is_Some (m !! p).
Proof.
  unfold found. rewrite existsb_exists. split.
  - intros ([q c] & Hin & Hm). cbn [fst] in Hm.
    apply matches_literal in Hm as ->.
    apply list_elem_of_In, elem_of_map_to_list in Hin. by eexists.
  - intros [c Hc]. exists (p, c). split.
    + by apply list_elem_of_In, elem_of_map_to_list.
    + by apply matches_literal.
Qed.

Lemma singular_literal p : singular (map Lit p) = true.
Proof. induction p; [done|]. done. Qed.

Lemma not_found_literal p b w :
  not_found (src [map Lit p] b) w = negb (bool_decide (is_Some (fs w !! p))).
Proof.
  cbn [not_found src existsb]. rewrite singular_literal, orb_false_r.
  cbn [andb]. f_equal. apply eq_true_iff_eq.
  rewrite found_literal. symmetry. apply bool_decide_eq_true.
Qed.

(** A task on one file that is named without a wildcard: it fails when
    the file is not there, and else runs the file through the chain. *)
Lemma returns_entry (s : stream) p b w :
  not_found s w = not_found (src [map Lit p] b) w ->
  source s w = source (src [map Lit p] b) w ->
  returns s w = match fs w !! p with
                | Some c => feed (chain s) [vinyl_of [map Lit p] b p c] w
                | None => (Failed, w)
                end.
Proof.
  intros Hn Hs. unfold returns. rewrite Hn, Hs, not_found_literal.
  destruct (fs w !! p) as [c|] eqn:Hc.
  - rewrite bool_decide_true by by eexists. cbn [negb].
    by rewrite (source_literal p b w c Hc).
  - rewrite bool_decide_false by by intros [? ?]. done.
Qed.

(** The configuration of webpack in [buildJs]. *)
Local Abbreviation webpack_config :=
  {| mode := "production";
     output_filename := "script.js";
     rule_test := "\.(js)$";
     rule_exclude := "(node_modules)";
     rule_loader := "babel-loader";
     preset := "@babel/preset-env";
     targets_browsers := ["> 1%"; "last 3 versions"];
     debug := true;
     corejs := "3.0.0";
     useBuiltIns := "usage";
     minimize := false |}.

Section OneFile.

Variable T : toolchain.

Lemma style_spec (w : world) (c c1 c2 c3 : bytes) :
  fs w !! ["source"; "less"; "style.less"] = Some c ->
  less_render T (fs w) ["source"; "less"; "style.less"] c = Some c1 ->
  autoprefix T ["last 3 versions"] c1 = Some c2 ->
  csso T c2 = Some c3 ->
  style T w =
    (Done, push ["build"; "css"; "style.min.css"]
             (write ["build"; "css"; "style.min.css"] c3
                (write ["build"; "css"; "style.css"] c2 w))).
Proof.
  intros Hc H1 H2 H3.
  unfold style.
  rewrite (returns_entry _ ["source"; "less"; "style.less"] None) by reflexivity.
  rewrite Hc. cbn [map feed chain pipe]. plugins. rewrite H1. cbn. rewrite H2. cbn.
  rewrite H3. reflexivity.
Qed.

(** C4: for a stylesheet that less, autoprefixer and csso accept, [style]
    writes the compiled and prefixed stylesheet to ['build/css/style.css'],
    then the minified one to ['build/css/style.min.css'] (the same name with
    ['.min'] before the extension), and tells the browsers; the minified
    file is not larger than the other when the minifier never lengthens
    its input. *)
Theorem style_writes_css_then_min (w : world) (c c1 c2 c3 : bytes) :
  fs w !! ["source"; "less"; "style.less"] = Some c ->
  less_render T (fs w) ["source"; "less"; "style.less"] c = Some c1 ->
  autoprefix T ["last 3 versions"] c1 = Some c2 ->
  csso T c2 = Some c3 ->
  non_expanding (csso T) ->
  (style T w).1 = Done /\
  written (style T w).2 =
    written w ++ [["build"; "css"; "style.css"]; ["build"; "css"; "style.min.css"]] /\
  fs (style T w).2 =
    <[ ["build"; "css"; "style.min.css"] := c3 ]>
      (<[ ["build"; "css"; "style.css"] := c2 ]> (fs w)) /\
  fs (style T w).2 !! ["build"; "css"; "style.css"] = Some c2 /\
  fs (style T w).2 !! ["build"; "css"; "style.min.css"] = Some c3 /\
  length c3 <= length c2 /\
  pushed (style T w).2 = pushed w ++ [["build"; "css"; "style.min.css"]].
Proof.
  intros Hc H1 H2 H3 Hmin.
  rewrite (style_spec w c c1 c2 c3 Hc H1 H2 H3). cbn [fst snd]. split; [done|].
  split; [cbn; by rewrite <- app_assoc|].
  split; [done|]. split; [|split; [|split; [|done]]].
  - cbn [fs push write]. rewrite lookup_insert_ne by done. apply lookup_insert_eq.
  - cbn [fs push write]. apply lookup_insert_eq.
  - by apply Hmin.
Qed.



(** With its entry file in place, a task runs the file through its
    chain. *)
Lemma style_runs w c :
  fs w !! ["source"; "less"; "style.less"] = Some c ->
  style T w =
    feed (chain (src [ [Lit "source"; Lit "less"; Lit "style.less"] ] None
                   .| plumber .| less T
                   .| postcss [autoprefixer T ["last 3 versions"]]
                   .| dest ["build"; "css"] .| minify T .| rename ".min"
                   .| dest ["build"; "css"] .| server_stream))
         [ {| base := ["source"; "less"]; relative := ["style.less"];
              contents := c |} ] w.
Proof.
  intros Hc. unfold style.
  rewrite (returns_entry _ ["source"; "less"; "style.less"] None) by reflexivity.
  by rewrite Hc.
Qed.

Lemma buildJs_runs w c :
  fs w !! ["source"; "js"; "script.js"] = Some c ->
  buildJs T w =
    feed (chain (src [ [Lit "source"; Lit "js"; Lit "script.js"] ] None
                   .| plumber .| webpackStream T webpack_config
                   .| dest ["build"; "js"] .| uglify T .| rename ".min"
                   .| dest ["build"; "js"]))
         [ {| base := ["source"; "js"]; relative := ["script.js"];
              contents := c |} ] w.
Proof.
  intros Hc. unfold buildJs.
  rewrite (returns_entry _ ["source"; "js"; "script.js"] None) by reflexivity.
  by rewrite Hc.
Qed.

(** Thanks to plumber the streams of [style] and [buildJs] never fail on
    what the tools do; the tasks fail when their entry file is missing. *)
Lemma style_done w :
  is_Some (fs w !! ["source"; "less"; "style.less"]) -> (style T w).1 = Done.
Proof.
  intros [c Hc]. unfold style.
  rewrite (returns_entry _ ["source"; "less"; "style.less"] None) by reflexivity.
  rewrite Hc. apply feed_never_fatal. intros v u. cbn [chain pipe src]. plugins.
  destruct (less_render T (fs u) _ _); cbn; [|done].
  destruct (autoprefix T _ _); cbn; [|done].
  by destruct (csso T _).
Qed.

Lemma style_not_found w :
  fs w !! ["source"; "less"; "style.less"] = None -> style T w = (Failed, w).
Proof.
  intros Hc. unfold style.
  rewrite (returns_entry _ ["source"; "less"; "style.less"] None) by reflexivity.
  by rewrite Hc.
Qed.

Lemma buildJs_done w :
  is_Some (fs w !! ["source"; "js"; "script.js"]) -> (buildJs T w).1 = Done.
Proof.
  intros [c Hc]. unfold buildJs.
  rewrite (returns_entry _ ["source"; "js"; "script.js"] None) by reflexivity.
  rewrite Hc. apply feed_never_fatal. intros v u. cbn [chain pipe src]. plugins.
  destruct (webpack_bundle T _ (fs u) _ _); cbn; [|done].
  by destruct (uglify_js T _).
Qed.

Lemma buildJs_not_found w :
  fs w !! ["source"; "js"; "script.js"] = None -> buildJs T w = (Failed, w).
Proof.
  intros Hc. unfold buildJs.
  rewrite (returns_entry _ ["source"; "js"; "script.js"] None) by reflexivity.
  by rewrite Hc.
Qed.

End OneFile.

(** ** [html] *)

(** ['source/pages/*.pug'] *)
Local Abbreviation pages_glob := [Lit "source"; Lit "pages"; StarExt ["pug"]].

Section Html.

Variable T : toolchain.

Local Abbreviation html_stream :=
  (src [pages_glob] None
     .| plumber .| pug T .| htmlprettify T " " 2 .| dest ["build"] .| server_stream).

(** The pages that [html] reads lie in ['source/pages'] itself. *)
Lemma html_source w v :
  v ∈ source html_stream w <->
  exists name c,
    fs w !! ["source"; "pages"; name] = Some c /\
    seg_match (StarExt ["pug"]) name = true /\
    v = {| base := ["source"; "pages"]; relative := [name]; contents := c |}.
Proof.
  cbn [source pipe]. rewrite elem_of_source. split.
  - intros (p & c & Hp & Hm & ->).
    unfold matches_any in Hm. cbn [existsb] in Hm. rewrite orb_false_r in Hm.
    destruct p as [|x p]; [done|]. pose proof Hm as [-> Hm1]%matches_lit_inv.
    destruct p as [|y p]; [done|]. pose proof Hm1 as [-> Hm2]%matches_lit_inv.
    destruct p as [|name p]; [done|]. cbn [matches] in Hm2.
    apply andb_prop in Hm2 as [Hn Hp2]. destruct p; [|done].
    exists name, c. split; [done|]. split; [done|].
    unfold vinyl_of. cbn [List.find]. rewrite Hm. reflexivity.
  - intros (name & c & Hc & Hn & ->). exists ["source"; "pages"; name], c.
    assert (Hm : matches pages_glob ["source"; "pages"; name] = true).
    { rewrite !matches_lit. cbn [matches]. by rewrite Hn. }
    split; [done|]. split.
    + unfold matches_any. cbn [existsb]. by rewrite Hm.
    + unfold vinyl_of. cbn [List.find]. rewrite Hm. reflexivity.
Qed.

(** One page in the chain of [html]: it is rendered, prettified, written
    below ['build'] with the extension [.html] and streamed to the server;
    an error is reported and the page dropped. *)
Lemma html_chain name c w :
  chain html_stream false
    {| base := ["source"; "pages"]; relative := [name]; contents := c |} w =
  match pug_render T (fs w) ["source"; "pages"; name] c with
  | None => (Drop, report "gulp-pug" ["source"; "pages"; name] w)
  | Some c1 =>
      match html_prettify T " " 2 c1 with
      | None =>
          (Drop, report "gulp-html-prettify"
                   ["source"; "pages"; Path.replace_ext ".html" name] w)
      | Some c2 =>
          let out := ["build"; Path.replace_ext ".html" name] in
          (Pass true {| base := ["build"];
                        relative := [Path.replace_ext ".html" name];
                        contents := c2 |},
           push out (write out c2 w))
      end
  end.
Proof.
  cbn [chain pipe src]. plugins.
  destruct (pug_render T (fs w) _ c); cbn; [|done].
  by destruct (html_prettify T " " 2 _).
Qed.

(** Thanks to plumber the stream of [html] never fails. *)
Lemma html_chain_not_fatal v w : (chain html_stream false v w).1 <> Fatal.
Proof.
  cbn [chain pipe src]. plugins.
  destruct (pug_render T (fs w) _ _); cbn; [|done].
  by destruct (html_prettify T " " 2 _).
Qed.

Lemma html_done w : (html T w).1 = Done.
Proof. apply feed_never_fatal, html_chain_not_fatal. Qed.


End Html.

(** ** What the watchers of [serve] run *)

Lemma filter_none {A} (f : A -> bool) (l : list A) :
  (forall x, In x l -> f x = false) -> List.filter f l = [].
Proof.
  induction l as [|x l IH]; intros H; [done|].
  simpl. rewrite (H x) by (by left). apply IH. intros y Hy. apply H. by right.
Qed.

Lemma matches_lit_ne s g x p : s <> x -> matches (Lit s :: g) (x :: p) = false.
Proof.
  intros H. simpl. apply String.eqb_neq in H. by rewrite H.
Qed.

(** The four watchers, as [serve] registers them. *)
Local Abbreviation watch_templates :=
  {| globs := [ [Lit "source"; Lit "pages"; GlobStar; StarExt ["pug"]];
                [Lit "source"; Lit "pug"; GlobStar; StarExt ["pug"]] ];
     events := [add; change; unlink]; delay := 50;
     action := series [task Html; task Reload] |}.

Local Abbreviation watch_styles :=
  {| globs := [ [Lit "source"; Lit "less"; GlobStar; StarExt ["less"]] ];
     events := [add; change; unlink]; delay := 50;
     action := series [task Style; task Reload] |}.

Local Abbreviation watch_scripts :=
  {| globs := [ [Lit "source"; Lit "js"; GlobStar; StarExt ["js"]] ];
     events := [add; change; unlink]; delay := 50;
     action := series [task BuildJs; task Reload] |}.

Local Abbreviation watch_images :=
  {| globs := [ [Lit "source"; Lit "img"; Star] ];
     events := [all]; delay := 50;
     action := series [task Images; task Reload] |}.

Lemma serve_watchers m lk :
  watchers (serve (fresh m lk)).2 =
    [watch_templates; watch_styles; watch_scripts; watch_images].
Proof. reflexivity. Qed.

Section Watching.

Variable T : toolchain.

(** C9: the image watcher of [serve] has the glob ['source/img/*'], which
    matches one level only: a change of a file in a subdirectory of
    ['source/img'] runs no watcher, so never [images] and [reload], whereas
    a change right in ['source/img'] does; yet [images] itself writes the
    images of every depth. *)
Theorem nested_image_change_runs_nothing
    (m : gmap path bytes) (lk : list path) (k : event_name)
    (d f : string) (rest : path) :
  let nested := "source" :: "img" :: d :: f :: rest in
  let ws := watchers (serve (fresh m lk)).2 in
  (exists r, ws !! 3 = Some r /\
             map Glob.show (globs r) = ["source/img/*"] /\
             action r = series [task Images; task Reload] /\
             forall r', In r' ws -> In Images (tasks_of (action r')) -> r' = r) /\
  (forall r, In r ws -> fires r k nested = false) /\
  triggered ws k nested = [] /\
  (forall name, visible name = true -> k <> all ->
     triggered ws k ["source"; "img"; name] = [series [task Images; task Reload]]) /\
  (forall w ds name c c',
     forallb visible ds = true ->
     seg_match (StarExt ["png"; "jpg"; "svg"]) name = true ->
     fs w !! ("source" :: "img" :: ds ++ [name]) = Some c ->
     (forall p x, matches images_glob p = true -> fs w !! p = Some x ->
                  is_Some (imagemin_buffer T images_use x)) ->
     imagemin_buffer T images_use c = Some c' ->
     fs (images T w).2 !! ("build" :: "img" :: ds ++ [name]) = Some c').
Proof.
  intros nested ws.
  assert (Hfires : forall r, In r ws -> fires r k nested = false).
  { intros r Hr. subst ws nested. cbn in Hr.
    destruct Hr as [<-|[<-|[<-|[<-|[]]]]];
      unfold fires, matches_any; cbn; by rewrite ?andb_false_r. }
  split; [|split; [done|split; [|split]]].
  - eexists. split; [reflexivity|]. split; [reflexivity|]. split; [reflexivity|].
    intros r' Hr' Ht. subst ws. cbn in Hr'.
    destruct Hr' as [<-|[<-|[<-|[<-|[]]]]]; cbn in Ht; try reflexivity;
      repeat destruct Ht as [Ht|Ht]; done.
  - unfold triggered. replace (List.filter (fun r => fires r k nested) ws) with (@nil watcher); [done|].
    symmetry. by apply filter_none.
  - intros name Hn Hk. subst ws. unfold triggered. cbn.
    unfold fires, matches_any. cbn. rewrite Hn. by destruct k.
  - intros w ds name c c' Hds Hn Hc Hall Hc'.
    destruct (images_all_optimized T w Hall) as [_ H].
    apply (H (ds ++ [name]) c c'); [|done|done].
    by apply images_glob_matches.
Qed.

End Watching.

(** ** [buildJs] *)

Section Script.

Variable T : toolchain.


End Script.

(** ** Tasks write to their own part of ['build'] *)

Lemma alike_refl m m' : alike m m' m m'.
Proof. intros q. by right. Qed.

Lemma alike_trans m m' u u' x x' :
  alike m m' u u' -> alike u u' x x' -> alike m m' x x'.
Proof.
  intros H1 H2 q. destruct (H2 q) as [E|[E E']]; [by left|].
  rewrite E, E'. apply H1.
Qed.

Lemma alike_eq m u u' : alike m m u u' -> u = u'.
Proof. intros H. apply map_eq. intros q. destruct (H q) as [?|[? ?]]; congruence. Qed.

Lemma tame_same_outside {X} R (A : world -> X * world) w w' :
  inside R -> tame R A ->
  same_outside ["build"] (fs w) (fs w') ->
  same_outside ["build"] (fs (A w).2) (fs (A w').2).
Proof.
  intros HR [HF _] Hs q Hq.
  assert (R q = false) as Hrq.
  { destruct (R q) eqn:E; [|done]. apply HR in E. congruence. }
  rewrite !HF by done. by apply Hs.
Qed.

Lemma tame_pipe pre mid post R s p :
  inside R ->
  tame_plugin pre mid R (chain s) -> tame_plugin mid post R p ->
  tame_plugin pre post R (chain (s .| p)).
Proof.
  intros HR Hs Hp pl v Hv. destruct (Hs pl v Hv) as [Hts Hposts].
  pose proof Hts as [HFs HSs].
  split; [split|].
  - intros w q Hq. cbn [chain pipe]. specialize (HFs w q Hq).
    specialize (Hposts w).
    destruct (chain s pl v w) as [r u]. cbn [fst snd] in *.
    destruct r as [pl' v'| |]; try done.
    destruct (Hp pl' v' (Hposts _ _ eq_refl)) as [[HFp _] _].
    by rewrite HFp.
  - intros w w' Hsame. cbn [chain pipe].
    pose proof (tame_same_outside R _ w w' HR Hts Hsame) as Hsame'.
    destruct (HSs w w' Hsame) as [Hr Hal].
    specialize (Hposts w).
    destruct (chain s pl v w) as [r u], (chain s pl v w') as [r' u'].
    cbn [fst snd] in *. subst r'.
    destruct r as [pl' v'| |]; try done.
    destruct (Hp pl' v' (Hposts _ _ eq_refl)) as [[_ HSp] _].
    destruct (HSp u u' Hsame') as [Hr' Hal']. split; [done|].
    by apply (alike_trans _ _ _ _ _ _ Hal).
  - intros w pl' v'. cbn [chain pipe]. specialize (Hposts w).
    destruct (chain s pl v w) as [r u]. cbn [fst snd] in *.
    destruct r as [pl0 v0| |]; try done.
    destruct (Hp pl0 v0 (Hposts _ _ eq_refl)) as [_ Hpost]. apply Hpost.
Qed.

Lemma tame_src pre R gs b : tame_plugin pre pre R (chain (src gs b)).
Proof.
  intros pl v Hv. split; [split|]; cbn.
  - done.
  - intros w w' _. split; [done|]. apply alike_refl.
  - by intros _ ? ? [= _ <-].
Qed.

Lemma tame_plumber pre R : tame_plugin pre pre R plumber.
Proof.
  intros pl v Hv. split; [split|]; cbn.
  - done.
  - intros w w' _. split; [done|]. apply alike_refl.
  - by intros _ ? ? [= _ <-].
Qed.

Lemma tame_server_stream pre R : tame_plugin pre pre R server_stream.
Proof.
  intros pl v Hv. split; [split|]; cbn.
  - done.
  - intros w w' _. split; [done|]. apply alike_refl.
  - by intros _ ? ? [= _ <-].
Qed.

Lemma tame_through (pre post : vinyl -> Prop) R name f :
  (forall w w' v, same_outside ["build"] (fs w) (fs w') -> f w v = f w' v) ->
  (forall w v v', pre v -> f w v = Some v' -> post v') ->
  tame_plugin pre post R (through name f).
Proof.
  intros Hf Hpost pl v Hv. unfold through. split; [split|].
  - intros w q _. destruct (f w v); [done|]. by destruct pl.
  - intros w w' Hs. rewrite <- (Hf w w' v Hs).
    destruct (f w v); [|destruct pl]; (split; [done|apply alike_refl]).
  - intros w pl' v'. specialize (Hpost w v).
    destruct (f w v); [|by destruct pl]. intros [= _ <-]. by apply Hpost.
Qed.

Lemma tame_dest (pre post : vinyl -> Prop) R dir :
  (forall v, pre v -> R (dir ++ relative v) = true) ->
  (forall v, pre v ->
     post {| base := dir; relative := relative v; contents := contents v |}) ->
  tame_plugin pre post R (dest dir).
Proof.
  intros HR Hpost pl v Hv. unfold dest. split; [split|]; cbn.
  - intros w q Hq. apply lookup_insert_ne. intros E. rewrite <- E, HR in Hq; done.
  - intros w w' _. split; [done|]. intros q.
    destruct (decide (dir ++ relative v = q)) as [<-|Hne].
    + left. by rewrite !lookup_insert_eq.
    + right. by rewrite !lookup_insert_ne.
  - intros _ ? ? [= _ <-]. by apply Hpost.
Qed.

Lemma tame_feed (pre post : vinyl -> Prop) R k vs :
  inside R -> tame_plugin pre post R k ->
  (forall v, v ∈ vs -> pre v) ->
  tame R (feed k vs).
Proof.
  intros HR Hk. induction vs as [|v vs IH]; intros Hvs.
  - split; [done|]. intros w w' _. split; [done|]. apply alike_refl.
  - destruct (Hk false v) as [Htv _]; [apply Hvs; by left|].
    destruct IH as [HF HS]; [intros v' Hv'; apply Hvs; by right|].
    pose proof Htv as [HFv HSv].
    split.
    + intros w q Hq. cbn [feed]. specialize (HFv w q Hq).
      destruct (k false v w) as [r u]. cbn [snd] in HFv.
      destruct r; cbn [snd]; try done; by rewrite HF.
    + intros w w' Hs. cbn [feed].
      pose proof (tame_same_outside R _ w w' HR Htv Hs) as Hs'.
      destruct (HSv w w' Hs) as [Hr Hal].
      destruct (k false v w) as [r u], (k false v w') as [r' u'].
      cbn [fst snd] in *. subst r'.
      destruct (HS u u' Hs') as [Hr' Hal'].
      destruct r; try done; (split; [done|]);
        by apply (alike_trans _ _ _ _ _ _ Hal).
Qed.

(** [src] lists the same files in two worlds with the same sources. *)
Lemma source_same gs b w w' :
  (forall p, matches_any gs p = true -> Path.under ["build"] p = false) ->
  same_outside ["build"] (fs w) (fs w') ->
  source (src gs b) w = source (src gs b) w'.
Proof.
  intros Hgs Hs. cbn [source src]. f_equal. f_equal.
  apply map_eq. intros q. apply option_eq. intros c.
  rewrite !map_lookup_filter_Some. cbn [fst].
  split; intros [Hq Hm]; (split; [|done]);
    apply Is_true_true in Hm; apply Hgs in Hm;
    [rewrite <- Hs by done | rewrite Hs by done]; done.
Qed.

(** [src] finds the same files in two worlds with the same sources. *)
Lemma found_same g m m' :
  (forall p, matches g p = true -> Path.under ["build"] p = false) ->
  same_outside ["build"] m m' -> found g m = found g m'.
Proof.
  intros Hg Hs. apply eq_true_iff_eq. unfold found. rewrite !existsb_exists.
  split; intros ([q c] & Hin & Hm); cbn [fst] in Hm; exists (q, c);
    (split; [|done]);
    apply list_elem_of_In, elem_of_map_to_list;
    apply list_elem_of_In, elem_of_map_to_list in Hin;
    [rewrite <- Hs by by apply Hg | rewrite Hs by by apply Hg]; done.
Qed.

Lemma not_found_same gs b w w' :
  (forall p, matches_any gs p = true -> Path.under ["build"] p = false) ->
  same_outside ["build"] (fs w) (fs w') ->
  not_found (src gs b) w = not_found (src gs b) w'.
Proof.
  intros Hgs Hs. cbn [not_found src].
  assert (Hg : forall g, In g gs ->
            forall p, matches g p = true -> Path.under ["build"] p = false).
  { intros g Hin p Hm. apply Hgs. unfold matches_any. apply existsb_exists.
    by exists g. }
  clear Hgs. induction gs as [|g gs IH]; [done|].
  cbn [existsb]. rewrite (found_same g (fs w) (fs w')); [|apply Hg; by left|done].
  f_equal. apply IH. intros g' Hg'. apply Hg. by right.
Qed.

(** A task that returns a tame stream is tame. *)
Lemma tame_returns (pre post : vinyl -> Prop) R gs b (s : stream) :
  inside R ->
  source s = source (src gs b) ->
  not_found s = not_found (src gs b) ->
  (forall p, matches_any gs p = true -> Path.under ["build"] p = false) ->
  (forall w v, v ∈ source (src gs b) w -> pre v) ->
  tame_plugin pre post R (chain s) ->
  tame R (returns s).
Proof.
  intros HR Hsrc Hnf Hgs Hpre Hk. unfold returns. rewrite Hsrc, Hnf. split.
  - intros w q Hq. destruct (not_found (src gs b) w); [done|].
    destruct (tame_feed pre post R (chain s) (source (src gs b) w) HR Hk) as [HF _].
    { apply Hpre. }
    by apply HF.
  - intros w w' Hs. rewrite <- (source_same gs b w w' Hgs Hs).
    rewrite <- (not_found_same gs b w w' Hgs Hs).
    destruct (not_found (src gs b) w).
    { split; [done|]. apply alike_refl. }
    destruct (tame_feed pre post R (chain s) (source (src gs b) w) HR Hk) as [_ HS].
    { apply Hpre. }
    by apply HS.
Qed.

Lemma under_app d r : Path.under d (d ++ r) = true.
Proof. induction d as [|x d IH]; [done|]. simpl. by rewrite String.eqb_refl. Qed.

Lemma source_outside_build gs :
  Forall (fun g => exists g', g = Lit "source" :: g') gs ->
  forall p, matches_any gs p = true -> Path.under ["build"] p = false.
Proof.
  intros Hall p Hm. unfold matches_any in Hm. apply existsb_exists in Hm as (g0 & Hin & Hm).
  apply list_elem_of_In in Hin. rewrite Forall_forall in Hall.
  destruct (Hall g0 Hin) as [g' ->].
  destruct p as [|x p]; [done|]. apply matches_lit_inv in Hm as [-> _]. done.
Qed.

Lemma under_cons x d y p :
  Path.under (x :: d) (y :: p) = String.eqb x y && Path.under d p.
Proof. reflexivity. Qed.

Lemma under_nil p : Path.under [] p = true.
Proof. by destruct p. Qed.

(** Normalize the regions of tasks on a path of known length. *)
Ltac regions :=
  unfold region in *;
  repeat (rewrite ?under_cons, ?under_nil, ?andb_true_r in *);
  repeat (match goal with
          | H : String.eqb _ _ = true |- _ => apply String.eqb_eq in H; subst
          | H : String.eqb _ _ && _ = true |- _ => apply andb_prop in H as [? ?]
          | H : Path.under (_ :: _) [] = true |- _ => discriminate H
          | H : false = true |- _ => discriminate H
          end);
  rewrite ?String.eqb_refl; try done.

Lemma inside_region n : n <> Reload -> n <> Deploy -> n <> Serve -> inside (region n).
Proof.
  intros H1 H2 H3 q Hq.
  destruct n; try done; destruct q as [|b [|x [|y [|z q]]]]; regions.
Qed.

(** The tasks of a stage write to different parts of ['build']. *)
Lemma regions_apart n n' q :
  n <> n' ->
  (In n [Copy; Images] /\ In n' [Copy; Images]) \/
  (In n [Html; Style; BuildJs] /\ In n' [Html; Style; BuildJs]) ->
  region n q = true -> region n' q = false.
Proof.
  intros Hne H Hq.
  destruct H as [[H H']|[H H']]; cbn in H, H';
    repeat (destruct H as [<-|H]; try done);
    repeat (destruct H' as [<-|H']; try done);
    destruct q as [|b [|x [|y [|z q]]]]; regions.
Qed.

(** [copy] and [images] use no tool that reads the file system. *)
Lemma tame_copy : tame (region Copy) copy.
Proof.
  unfold copy.
  apply (tame_returns (fun v => exists rest, relative v = "fonts" :: rest)
           (fun _ => True) (region Copy) [fonts_glob] (Some ["source"])).
  - by apply inside_region.
  - reflexivity.
  - reflexivity.
  - apply source_outside_build. repeat constructor. by eexists.
  - intros w v (p & c & _ & Hm & ->)%elem_of_source.
    unfold matches_any in Hm. cbn [existsb] in Hm. rewrite orb_false_r in Hm.
    destruct p as [|x p]; [done|]. pose proof Hm as [-> Hm1]%matches_lit_inv.
    destruct p as [|y p]; [done|]. pose proof Hm1 as [-> _]%matches_lit_inv.
    by exists p.
  - eapply tame_pipe; [by apply inside_region | apply tame_src |].
    apply tame_dest; [|done]. intros v [rest ->].
    apply (under_app ["build"; "fonts"] rest).
Qed.

Section TameImages.

Variable T : toolchain.

Lemma tame_images : tame (region Images) (images T).
Proof.
  unfold images.
  apply (tame_returns (fun _ => True) (fun _ => True) (region Images)
           [images_glob] None).
  - by apply inside_region.
  - reflexivity.
  - reflexivity.
  - apply source_outside_build. repeat constructor. by eexists.
  - done.
  - eapply tame_pipe; [by apply inside_region | |].
    + eapply tame_pipe; [by apply inside_region | apply tame_src |].
      unfold imagemin. by apply (tame_through (fun _ => True) (fun _ => True)).
    + apply tame_dest; [|done]. intros v _. apply (under_app ["build"; "img"]).
Qed.

End TameImages.

Section TameCompilers.

Variable T : toolchain.
Hypothesis HT : reads_sources_only T.

(** A file right in its base directory. *)
Local Abbreviation single := (fun v : vinyl => exists x, relative v = [x]).

Lemma single_source p name c :
  single (vinyl_of [map Lit (p ++ [name])] None (p ++ [name]) c).
Proof.
  exists name. unfold vinyl_of.
  assert (matches (map Lit (p ++ [name])) (p ++ [name]) = true) as Hm
    by by apply matches_literal.
  cbn [List.find]. rewrite Hm. cbn [relative].
  unfold parent. rewrite map_app. cbn [map].
  rewrite removelast_last.
  clear Hm. induction p as [|x p IH]; [done|].
  cbn. by rewrite String.eqb_refl.
Qed.

Lemma tame_pug : tame_plugin single single (region Html) (pug T).
Proof.
  apply tame_through.
  - intros w w' v Hs. destruct (HT _ _ Hs) as (-> & _ & _). done.
  - intros w v v' [x Hx] Hv.
    destruct (pug_render T (fs w) (vpath v) (contents v)); [|done].
    injection Hv as <-. rewrite Hx. by eexists.
Qed.

Lemma tame_keeps_path R name (f : vinyl -> option bytes) :
  tame_plugin single single R
    (through name (fun _ v => c ← f v; Some (set_contents c v))).
Proof.
  apply tame_through; [reflexivity|].
  intros w v v' Hx Hv. cbn in Hv. destruct (f v); [|done]. by injection Hv as <-.
Qed.

Lemma tame_html : tame (region Html) (html T).
Proof.
  assert (HR : inside (region Html)) by by apply inside_region.
  unfold html.
  apply (tame_returns single single (region Html) [pages_glob] None);
    [done | reflexivity | reflexivity | | |].
  - apply source_outside_build. repeat constructor. by eexists.
  - intros w v Hv.
    apply (html_source T) in Hv as (name & c & _ & _ & ->). by eexists.
  - repeat (eapply tame_pipe; [exact HR | | ]).
    + apply tame_src.
    + apply tame_plumber.
    + apply tame_pug.
    + apply tame_keeps_path.
    + apply (tame_dest single single);
        [by intros v [x ->] | intros v [x Hx]; cbn beta; by exists x].
    + apply tame_server_stream.
Qed.

Lemma tame_less : tame_plugin single single (region Style) (less T).
Proof.
  apply tame_through.
  - intros w w' v Hs. destruct (HT _ _ Hs) as (_ & -> & _). done.
  - intros w v v' [x Hx] Hv.
    destruct (less_render T (fs w) (vpath v) (contents v)); [|done].
    injection Hv as <-. rewrite Hx. by eexists.
Qed.

Lemma tame_rename R suffix : tame_plugin single single R (rename suffix).
Proof.
  apply tame_through; [reflexivity|].
  intros w v v' [x Hx] [= <-]. cbn. rewrite Hx. by eexists.
Qed.

Lemma tame_style : tame (region Style) (style T).
Proof.
  assert (HR : inside (region Style)) by by apply inside_region.
  unfold style.
  apply (tame_returns single single (region Style)
           [map Lit ["source"; "less"; "style.less"]] None);
    [done | reflexivity | reflexivity | | |].
  - apply source_outside_build. repeat constructor. by eexists.
  - intros w v (p & c & _ & Hm & ->)%elem_of_source.
    unfold matches_any in Hm. cbn [existsb] in Hm. rewrite orb_false_r in Hm.
    apply matches_literal in Hm as ->.
    apply (single_source ["source"; "less"] "style.less").
  - repeat (eapply tame_pipe; [exact HR | | ]).
    + apply tame_src.
    + apply tame_plumber.
    + apply tame_less.
    + apply tame_keeps_path.
    + apply (tame_dest single single);
        [by intros v [x ->] | intros v [x Hx]; cbn beta; by exists x].
    + apply tame_keeps_path.
    + apply tame_rename.
    + apply (tame_dest single single);
        [by intros v [x ->] | intros v [x Hx]; cbn beta; by exists x].
    + apply tame_server_stream.
Qed.

Lemma tame_webpack o :
  tame_plugin (fun _ => True) single (region BuildJs) (webpackStream T o).
Proof.
  apply tame_through.
  - intros w w' v Hs. destruct (HT _ _ Hs) as (_ & _ & ->). done.
  - intros w v v' _ Hv.
    destruct (webpack_bundle T o (fs w) (vpath v) (contents v)); [|done].
    injection Hv as <-. by eexists.
Qed.

Lemma tame_buildJs : tame (region BuildJs) (buildJs T).
Proof.
  assert (HR : inside (region BuildJs)) by by apply inside_region.
  unfold buildJs.
  apply (tame_returns (fun _ => True) single (region BuildJs)
           [map Lit ["source"; "js"; "script.js"]] None);
    [done | reflexivity | reflexivity | | done |].
  - apply source_outside_build. repeat constructor. by eexists.
  - repeat (eapply tame_pipe; [exact HR | | ]).
    + apply tame_src.
    + apply tame_plumber.
    + apply tame_webpack.
    + apply (tame_dest single single);
        [by intros v [x ->] | intros v [x Hx]; cbn beta; by exists x].
    + apply tame_keeps_path.
    + apply tame_rename.
    + apply (tame_dest single single);
        [by intros v [x ->] | intros v [x Hx]; cbn beta; by exists x].
Qed.


End TameCompilers.

(** ** [clean] *)

Lemma clean_frame w q :
  Path.under ["build"] q = false -> fs (clean w).2 !! q = fs w !! q.
Proof.
  intros Hq. unfold clean, del. cbn [snd fs set_fs].
  apply option_eq. intros c. rewrite map_lookup_filter_Some. cbn [fst].
  rewrite Hq. cbn. tauto.
Qed.

Lemma clean_done w :
  (clean w).1 = Done <->
  forall p, p ∈ locked w -> Path.under ["build"] p = true -> fs w !! p = None.
Proof.
  unfold clean, del. cbn [fst]. case_bool_decide as H; split; try done.
  - intros _ p Hl Hp. destruct (fs w !! p) as [c|] eqn:E; [|done].
    specialize (H p c E). cbn beta in H. rewrite Hp in H.
    by rewrite bool_decide_true in H.
  - intros Hall. exfalso. apply H. intros p c Hc. cbn beta.
    destruct (Path.under ["build"] p) eqn:Hp; [|done].
    case_bool_decide as Hl; [|done]. rewrite (Hall p Hl Hp) in Hc. done.
Qed.

Lemma clean_done_absent w :
  (clean w).1 = Done -> absent ["build"] (fs (clean w).2).
Proof.
  intros Hd p Hp. unfold clean, del. cbn [snd fs set_fs].
  apply map_lookup_filter_None. right. intros c Hc. cbn [fst].
  rewrite Hp. cbn. case_bool_decide as Hl; [|by intros []].
  rewrite (proj1 (clean_done w) Hd p Hl Hp) in Hc. done.
Qed.

Lemma clean_absent w : absent ["build"] (fs w) -> clean w = (Done, w).
Proof.
  intros Ha.
  assert (Hd : (clean w).1 = Done).
  { apply clean_done. intros p _ Hp. by apply Ha. }
  assert (Hfs : fs (clean w).2 = fs w).
  { apply map_eq. intros q. destruct (Path.under ["build"] q) eqn:Hq.
    - rewrite (clean_done_absent w Hd q Hq). symmetry. by apply Ha.
    - by apply clean_frame. }
  unfold clean, del in *. cbn [fst snd fs set_fs] in *.
  rewrite Hd, Hfs. by destruct w.
Qed.

(** ** Complete runs of the build pipeline *)

Section Runs.

Variable T : toolchain.

Lemma apply_trace_run_tasks tr w :
  forallb quiet tr = true -> apply_trace T tr w = run_tasks T (finished tr) w.
Proof.
  revert w. induction tr as [|l tr IH]; intros w Hq; [done|].
  cbn [forallb] in Hq. apply andb_prop in Hq as [Hl Hq].
  destruct l as [n|n|n|]; cbn [apply_trace apply_label finished run_tasks quiet] in *.
  - rewrite Hl. cbn. by apply IH.
  - destruct (body T n w) as [[] w']; cbn; auto.
  - done.
  - cbn. by apply IH.
Qed.

Lemma run_tasks_app l1 l2 w :
  run_tasks T (l1 ++ l2) w = run_tasks T l1 w ≫= run_tasks T l2.
Proof.
  revert w. induction l1 as [|n l1 IH]; intros w; [done|].
  cbn [app run_tasks]. destruct (body T n w) as [[] w']; cbn; auto.
Qed.

Lemma build_orders_explored :
  explore (fun tr r =>
             implb (bool_decide (outcome r = Some true))
                   (forallb quiet tr && bool_decide (finished tr ∈ build_orders)))
          16 [] (init exports_build) = true.
Proof. vm_compute. reflexivity. Qed.

(** A complete run of [exports.build] is [clean], then [copy] and [images]
    in some order, then [html], [style] and [buildJs] in some order, each
    run to its completion. *)
Lemma completes_build w w' :
  completes T exports_build w w' ->
  exists s2 s3,
    s2 ≡ₚ [Copy; Images] /\ s3 ≡ₚ [Html; Style; BuildJs] /\
    run_tasks T (Clean :: s2 ++ s3) w = Some w'.
Proof.
  intros (tr & r & Hr & Ho & Hw).
  pose proof (explore_init _ _ _ build_orders_explored tr r Hr) as H.
  cbn beta in H. rewrite bool_decide_true in H by done. cbn [implb] in H.
  apply andb_prop in H as [Hq Hin]. apply bool_decide_eq_true in Hin.
  rewrite (apply_trace_run_tasks tr w Hq) in Hw.
  revert Hin Hw. generalize (finished tr). intros o Hin Hw.
  unfold build_orders in Hin. cbn in Hin.
  repeat (apply elem_of_cons in Hin as [->|Hin]);
    [..|by apply elem_of_nil in Hin];
    (eexists [_; _], [_; _; _]; split; [|split; [|exact Hw]]);
    by apply (bool_decide_unpack _).
Qed.

End Runs.

(** ** The order of the tasks of a stage does not matter *)

Lemma tame_frame_outside {X} R (A : world -> X * world) w :
  inside R -> tame R A -> same_outside ["build"] (fs w) (fs (A w).2).
Proof.
  intros HR [HF _] q Hq. symmetry. apply HF.
  destruct (R q) eqn:E; [|done]. apply HR in E. congruence.
Qed.

Lemma tame_fs_eq {X} R (A : world -> X * world) w w' :
  tame R A -> fs w = fs w' ->
  (A w).1 = (A w').1 /\ fs (A w).2 = fs (A w').2.
Proof.
  intros [_ HS] E. destruct (HS w w') as [Hr Hal]; [by rewrite E|].
  split; [done|]. rewrite E in Hal. by apply alike_eq in Hal.
Qed.

(** Two tame tasks with regions apart commute. *)
Lemma tame_commute R1 R2 (A B : gulp_task) w :
  inside R1 -> inside R2 -> tame R1 A -> tame R2 B ->
  (forall q, R1 q = true -> R2 q = false) ->
  fs (B (A w).2).2 = fs (A (B w).2).2 /\
  (B (A w).2).1 = (B w).1 /\ (A (B w).2).1 = (A w).1.
Proof.
  intros HR1 HR2 HA HB Hapart.
  pose proof (tame_frame_outside R1 A w HR1 HA) as Hwa.
  pose proof (tame_frame_outside R2 B w HR2 HB) as Hwb.
  pose proof HA as [HFA HSA]. pose proof HB as [HFB HSB].
  destruct (HSB _ _ Hwa) as [HrB HalB]. destruct (HSA _ _ Hwb) as [HrA HalA].
  split; [|by split]. apply map_eq. intros q.
  destruct (R2 q) eqn:E2.
  - assert (R1 q = false) as E1.
    { destruct (R1 q) eqn:E1; [|done]. apply Hapart in E1. congruence. }
    rewrite (HFA (B w).2 q E1).
    destruct (HalB q) as [E|[E E']]; [done|]. rewrite E', E. by apply HFA.
  - rewrite (HFB (A w).2 q E2).
    destruct (HalA q) as [E|[E E']]; [done|].
    rewrite E', E. symmetry. by apply HFB.
Qed.

Section Orders.

Variable T : toolchain.

(** The tasks of [l] are tame, with regions apart. *)
Local Abbreviation stage_like l :=
  ((forall n, In n l -> tame (region n) (body T n) /\ inside (region n)) /\
   (forall n n' q, In n l -> In n' l -> n <> n' ->
      region n q = true -> region n' q = false)).

Lemma run_tasks_cons_Some n l w u :
  run_tasks T (n :: l) w = Some u <->
  (body T n w).1 = Done /\ run_tasks T l (body T n w).2 = Some u.
Proof.
  cbn [run_tasks]. destruct (body T n w) as [[] a]; cbn [fst snd];
    split; try done; by intros [? ?].
Qed.

Lemma run_tasks_fs_eq l w w' u :
  (forall n, In n l -> tame (region n) (body T n)) ->
  fs w = fs w' -> run_tasks T l w = Some u ->
  exists u', run_tasks T l w' = Some u' /\ fs u = fs u'.
Proof.
  revert w w'. induction l as [|n l IH]; intros w w' Ht E Hu.
  - injection Hu as <-. by exists w'.
  - cbn [run_tasks] in *.
    destruct (tame_fs_eq (region n) (body T n) w w') as [Hr Hfs];
      [apply Ht; by left | done |].
    destruct (body T n w) as [r a], (body T n w') as [r' a'].
    cbn [fst snd] in *. subst r'. destruct r; try done.
    apply (IH a a'); auto. intros n' Hn'. apply Ht. by right.
Qed.

Lemma run_tasks_perm l l' :
  l ≡ₚ l' -> NoDup l -> stage_like l ->
  forall w w' u, fs w = fs w' -> run_tasks T l w = Some u ->
    exists u', run_tasks T l' w' = Some u' /\ fs u = fs u'.
Proof.
  induction 1 as [|x l l' Hp IH|x y l|l l' l'' Hp IH Hp' IH'];
    intros Hnd [Ht Hap] w w' u E Hu.
  - injection Hu as <-. by exists w'.
  - cbn [run_tasks] in *.
    destruct (tame_fs_eq (region x) (body T x) w w') as [Hr Hfs];
      [apply Ht; by left | done |].
    destruct (body T x w) as [r a], (body T x w') as [r' a'].
    cbn [fst snd] in *. subst r'. destruct r; try done.
    apply NoDup_cons in Hnd as [_ Hnd].
    refine (IH Hnd _ a a' u Hfs Hu). split.
    + intros n Hn. apply Ht. by right.
    + intros n n' q Hn Hn'. apply Hap; by right.
  - assert (Hxy : x <> y).
    { apply NoDup_cons in Hnd as [Hy _]. intros ->. apply Hy. by left. }
    destruct (Ht x) as [Htx Hix]; [right; by left|].
    destruct (Ht y) as [Hty Hiy]; [by left|].
    destruct (tame_commute (region y) (region x) (body T y) (body T x) w)
      as (Hfs & Hrx & Hry); auto.
    { intros q. apply Hap; [by left | right; by left | done]. }
    apply run_tasks_cons_Some in Hu as [Hy Hu].
    apply run_tasks_cons_Some in Hu as [Hx Hu].
    destruct (tame_fs_eq (region x) (body T x) w w' Htx E) as [Hr1 Hf1].
    destruct (tame_fs_eq (region y) (body T y) (body T x w).2 (body T x w').2 Hty Hf1)
      as [Hr2 Hf2].
    destruct (run_tasks_fs_eq l (body T x (body T y w).2).2
                (body T y (body T x w').2).2 u) as (u' & Hu' & Eu); [|congruence|done|].
    { intros n Hn. apply Ht. right. by right. }
    exists u'. split; [|done].
    apply run_tasks_cons_Some. split; [congruence|].
    apply run_tasks_cons_Some. split; [congruence|done].
  - destruct (IH Hnd (conj Ht Hap) w w u eq_refl Hu) as (u1 & Hu1 & E1).
    assert (Hnd' : NoDup l') by (by rewrite <- Hp).
    assert (Hin : forall n, In n l' -> In n l).
    { intros n Hn. by apply (Permutation_in _ (Permutation_sym Hp)). }
    destruct (IH' Hnd') with (w := w) (w' := w') (u := u1)
      as (u2 & Hu2 & E2); [|done|done|].
    + split.
      * intros n Hn. apply Ht. by apply Hin.
      * intros n n' q Hn Hn'. apply Hap; by apply Hin.
    + exists u2. split; [done|congruence].
Qed.

(** A run of tame tasks leaves the sources alone. *)
Lemma run_tasks_outside l w u :
  (forall n, In n l ->
     forall w q, Path.under ["build"] q = false ->
       fs (body T n w).2 !! q = fs w !! q) ->
  run_tasks T l w = Some u -> same_outside ["build"] (fs w) (fs u).
Proof.
  revert w. induction l as [|n l IH]; intros w Hf Hu.
  - by injection Hu as <-.
  - cbn [run_tasks] in Hu. pose proof (Hf n (or_introl eq_refl) w) as Hn.
    destruct (body T n w) as [[] a]; try done. cbn [snd] in Hn.
    intros q Hq. rewrite <- (Hn q Hq). apply IH; [|done|done].
    intros n' Hn'. apply Hf. by right.
Qed.

End Orders.

(** ** The build pipeline as a whole *)

Lemma clean_fails_explored c :
  c = exports_build \/ c = exports_default ->
  explore (fun tr r =>
             implb (bool_decide (Fail Clean ∈ tr))
                   (forallb only_clean tr && bool_decide (outcome r = Some false)))
          20 [] (init c) = true.
Proof. intros [->| ->]; vm_compute; reflexivity. Qed.

Section Pipeline.

Variable T : toolchain.

Lemma stage2_like : forall l, l ≡ₚ [Copy; Images] ->
  NoDup l /\
  (forall n, In n l -> tame (region n) (body T n) /\ inside (region n)) /\
  (forall n n' q, In n l -> In n' l -> n <> n' ->
     region n q = true -> region n' q = false).
Proof.
  intros l Hl.
  assert (Hin : forall n, In n l -> In n [Copy; Images])
    by (intros n; apply Permutation_in; done).
  split; [|split].
  - rewrite Hl. by apply (bool_decide_unpack _).
  - intros n [<-|[<-|[]]]%Hin; cbn [body]; split;
      auto using tame_copy, tame_images; by apply inside_region.
  - intros n n' q Hn%Hin Hn'%Hin Hne. apply regions_apart; auto.
Qed.

Lemma stage3_like : reads_sources_only T -> forall l, l ≡ₚ [Html; Style; BuildJs] ->
  NoDup l /\
  (forall n, In n l -> tame (region n) (body T n) /\ inside (region n)) /\
  (forall n n' q, In n l -> In n' l -> n <> n' ->
     region n q = true -> region n' q = false).
Proof.
  intros HT l Hl.
  assert (Hin : forall n, In n l -> In n [Html; Style; BuildJs])
    by (intros n; apply Permutation_in; done).
  split; [|split].
  - rewrite Hl. by apply (bool_decide_unpack _).
  - intros n [<-|[<-|[<-|[]]]]%Hin; cbn [body]; split;
      auto using tame_html, tame_style, tame_buildJs; by apply inside_region.
  - intros n n' q Hn%Hin Hn'%Hin Hne. apply regions_apart; auto.
Qed.

(** A complete run of [exports.build], stage by stage. *)
Lemma completes_build_stages w w' :
  completes T exports_build w w' ->
  exists s2 s3 b,
    s2 ≡ₚ [Copy; Images] /\ s3 ≡ₚ [Html; Style; BuildJs] /\
    (clean w).1 = Done /\
    run_tasks T s2 (clean w).2 = Some b /\
    run_tasks T s3 b = Some w'.
Proof.
  intros (s2 & s3 & H2 & H3 & Hrun)%completes_build.
  apply run_tasks_cons_Some in Hrun as [Hc Hrun]. cbn [body] in Hc, Hrun.
  rewrite run_tasks_app in Hrun.
  destruct (run_tasks T s2 (clean w).2) as [b|] eqn:Hb; [|done].
  by exists s2, s3, b.
Qed.

Lemma tame_frame_build n w q :
  tame (region n) (body T n) -> inside (region n) ->
  Path.under ["build"] q = false -> fs (body T n w).2 !! q = fs w !! q.
Proof.
  intros Ht Hi Hq. symmetry. by apply (tame_frame_outside (region n) (body T n) w).
Qed.

(** When the compilers never look below ['build'], [exports.build] run a
    second time on the result of a first run leaves the same files: the
    output depends neither on what was below ['build'] before nor on the
    order in which the tasks of a stage complete. *)
Lemma build_twice_reading_sources (w w1 w2 : world) :
  reads_sources_only T ->
  completes T exports_build w w1 ->
  completes T exports_build w1 w2 ->
  fs w2 = fs w1.
Proof.
  intros HT (s2 & s3 & b & H2 & H3 & Hc & Hb & Hw1)%completes_build_stages
            (s2' & s3' & b' & H2' & H3' & Hc' & Hb' & Hw2)%completes_build_stages.
  destruct (stage2_like s2 H2) as (Hnd2 & Ht2 & Hap2).
  destruct (stage3_like HT s3 H3) as (Hnd3 & Ht3 & Hap3).
  assert (Hsrc : same_outside ["build"] (fs w) (fs w1)).
  { intros q Hq. rewrite <- (clean_frame w q Hq).
    transitivity (fs b !! q).
    - apply (run_tasks_outside T s2); [|done|done].
      intros n Hn u q' Hq'. destruct (Ht2 n Hn). by apply tame_frame_build.
    - apply (run_tasks_outside T s3); [|done|done].
      intros n Hn u q' Hq'. destruct (Ht3 n Hn). by apply tame_frame_build. }
  assert (Ha : fs (clean w).2 = fs (clean w1).2).
  { apply map_eq. intros q. destruct (Path.under ["build"] q) eqn:Hq.
    - by rewrite (clean_done_absent w Hc q Hq), (clean_done_absent w1 Hc' q Hq).
    - rewrite !clean_frame by done. by apply Hsrc. }
  destruct (run_tasks_perm T s2 s2') with (w := (clean w).2) (w' := (clean w1).2) (u := b)
    as (u & Hu & Eb); [by rewrite H2, H2' | done | by split | done | done |].
  rewrite Hb' in Hu. injection Hu as <-.
  destruct (run_tasks_perm T s3 s3') with (w := b) (w' := b') (u := w1)
    as (u & Hu & Ew); [by rewrite H3, H3' | done | by split | done | done |].
  rewrite Hw2 in Hu. by injection Hu as <-.
Qed.

(** C2, as the code has it: there is no plumber in [images].  When
    imagemin succeeds on every image, each image is written, optimized,
    at its path relative to ['source/img'] below ['build/img'].  When it
    fails on one image, [images] fails, and no run of [exports.build]
    completes. *)
Theorem images_fails_with_imagemin (w : world) :
  ((forall p c, matches images_glob p = true -> fs w !! p = Some c ->
                is_Some (imagemin_buffer T images_use c)) ->
   (images T w).1 = Done /\
   forall rel c c',
     matches images_glob ("source" :: "img" :: rel) = true ->
     fs w !! ("source" :: "img" :: rel) = Some c ->
     imagemin_buffer T images_use c = Some c' ->
     fs (images T w).2 !! ("build" :: "img" :: rel) = Some c') /\
  (forall p c, matches images_glob p = true -> fs w !! p = Some c ->
               imagemin_buffer T images_use c = None ->
   (images T w).1 = Failed /\
   forall w', ~ completes T exports_build w w').
Proof.
  split; [apply images_all_optimized|].
  intros p c Hm Hc Hnone. split; [by apply (images_not_optimized T w p c)|].
  intros w' (s2 & s3 & b & H2 & _ & _ & Hb & _)%completes_build_stages.
  destruct (stage2_like s2 H2) as (_ & Ht2 & _).
  assert (Hp : Path.under ["build"] p = false).
  { apply (source_outside_build [images_glob]).
    - repeat constructor. by eexists.
    - unfold matches_any. cbn [existsb]. by rewrite Hm. }
  assert (Hin : In Images s2).
  { apply (Permutation_in _ (Permutation_sym H2)). right. by left. }
  assert (Hca : fs (clean w).2 !! p = Some c) by by rewrite clean_frame.
  revert Hca Hb. generalize (clean w).2. clear Hc H2.
  induction s2 as [|n s2 IH]; intros a Hca Hb; [done|].
  apply run_tasks_cons_Some in Hb as [Hn Hb].
  destruct (decide (n = Images)) as [->|Hne].
  - cbn [body] in Hn. rewrite (images_not_optimized T a p c Hm Hca Hnone) in Hn. done.
  - destruct Hin as [->|Hin]; [done|].
    apply IH with (w := (body T n a).2); [|done| |done].
    + intros n' Hn'. apply Ht2. by right.
    + destruct (Ht2 n) as [Ht Hi]; [by left|].
      by rewrite tame_frame_build.
Qed.

(** C7: [clean] removes everything below ['build'] and nothing else, and
    signals completion only with the removal done.  When a file cannot be
    removed, [clean] fails; in a run of a pipeline no other task is started
    then and the pipeline ends with the error.  Without a ['build']
    directory, [clean] succeeds and changes nothing. *)
Theorem clean_removes_build_or_halts (w : world) :
  ((forall p, p ∈ locked w -> Path.under ["build"] p = true -> fs w !! p = None) ->
   (clean w).1 = Done /\
   absent ["build"] (fs (clean w).2) /\
   same_outside ["build"] (fs w) (fs (clean w).2)) /\
  (forall w', apply_label T (Finish Clean) w = Some w' ->
     absent ["build"] (fs w')) /\
  (forall p c, p ∈ locked w -> Path.under ["build"] p = true ->
               fs w !! p = Some c ->
   (clean w).1 = Failed /\
   forall w', ~ completes T exports_build w w') /\
  (forall c tr r,
     c = exports_build \/ c = exports_default ->
     reach (init c) tr r -> In (Fail Clean) tr ->
     (forall n, In (Start n) tr -> n = Clean) /\ outcome r = Some false) /\
  (absent ["build"] (fs w) -> clean w = (Done, w)).
Proof.
  split; [|split; [|split; [|split]]].
  - intros Hfree. apply clean_done in Hfree. split; [done|].
    split; [by apply clean_done_absent|].
    intros q Hq. symmetry. by apply clean_frame.
  - intros w'. cbn [apply_label body].
    destruct (clean w) as [r a] eqn:E. destruct r; try done.
    intros [= <-]. replace a with (clean w).2 by by rewrite E.
    apply clean_done_absent. by rewrite E.
  - intros p c Hl Hp Hc.
    assert (Hf : (clean w).1 = Failed).
    { destruct (clean w).1 eqn:E; [|done|].
      - rewrite (proj1 (clean_done w) E p Hl Hp) in Hc. done.
      - unfold clean, del in E. cbn [fst] in E. by case_bool_decide. }
    split; [done|].
    intros w' (s2 & s3 & b & _ & _ & Hd & _)%completes_build_stages. congruence.
  - intros c tr r Hc Hr Hin.
    pose proof (explore_init _ _ _ (clean_fails_explored c Hc) tr r Hr) as H.
    cbn beta in H. rewrite bool_decide_true in H by by apply list_elem_of_In.
    cbn [implb] in H. apply andb_prop in H as [Hall Ho].
    split; [|by apply bool_decide_eq_true in Ho].
    intros n Hn. rewrite forallb_forall in Hall. specialize (Hall _ Hn).
    by apply bool_decide_eq_true in Hall.
  - apply clean_absent.
Qed.

End Pipeline.

(** ** The stages of the pipelines *)


(** ** The properties on the sample project *)

(** The globs of the model are the strings of the gulpfile. *)
Example globs_as_written :
  map Glob.show [fonts_glob; pages_glob; images_glob;
                 [Lit "source"; Lit "less"; Lit "style.less"];
                 [Lit "source"; Lit "js"; Lit "script.js"]] =
  [ "source/fonts/**/*.{woff,woff2,eot,ttf}";
    "source/pages/*.pug";
    "source/img/**/*.{png,jpg,svg}";
    "source/less/style.less";
    "source/js/script.js" ].
Proof. reflexivity. Qed.


Lemma sample_csso_non_expanding : non_expanding (csso sample_tools).
Proof.
  intros c c' [= <-]. induction c as [|b c IH]; [done|].
  cbn [List.filter]. destruct (no_space b); cbn [length]; lia.
Qed.

Lemma sample_run_completes :
  completes sample_tools exports_build sample_world sample_built.
Proof.
  exists sample_run. eexists. split; [|split].
  - unfold sample_run.
    repeat (eapply reach_step; [vm_compute; auto 10|]). apply reach_refl.
  - reflexivity.
  - vm_compute. reflexivity.
Qed.

Lemma sample_rerun_completes :
  completes sample_tools exports_build sample_built sample_rebuilt.
Proof.
  exists sample_rerun. eexists. split; [|split].
  - unfold sample_rerun.
    repeat (eapply reach_step; [vm_compute; auto 10|]). apply reach_refl.
  - reflexivity.
  - vm_compute. reflexivity.
Qed.

(** [style] on the sample project. *)
Lemma style_witness :
  (style sample_tools sample_world).1 = Done /\
  fs (style sample_tools sample_world).2 !! ["build"; "css"; "style.css"]
    = Some sample_less /\
  fs (style sample_tools sample_world).2 !! ["build"; "css"; "style.min.css"]
    = Some (String.list_byte_of_string "a{color:red}") /\
  length (String.list_byte_of_string "a{color:red}") <= length sample_less.
Proof.
  destruct (style_writes_css_then_min sample_tools sample_world
              sample_less sample_less sample_less
              (String.list_byte_of_string "a{color:red}"))
    as (H1 & _ & _ & H2 & H3 & H4 & _).
  - vm_compute. reflexivity.
  - reflexivity.
  - reflexivity.
  - vm_compute. reflexivity.
  - exact sample_csso_non_expanding.
  - split; [exact H1|]. split; [exact H2|]. split; [exact H3|exact H4].
Defined.


(** The counterexample of C2: imagemin fails on an image, [images] fails
    and the image is not in the output. *)
Example images_fails_on_truncated_png :
  let w := fresh {[ ["source"; "img"; "logo.png"] := truncated_png ]} [] in
  matches images_glob ["source"; "img"; "logo.png"] = true /\
  imagemin_buffer sample_tools images_use truncated_png = None /\
  (images sample_tools w).1 = Failed /\
  fs (images sample_tools w).2 !! ["build"; "img"; "logo.png"] = None.
Proof. evaluate. Qed.

(** ** Further properties *)

Section ErrorPolicy.

Variable T : toolchain.



End ErrorPolicy.


(** ** The names and the contents of the pages that [html] writes *)

Lemma append_cons x a b : String x a +:+ b = String x (a +:+ b).
Proof. reflexivity. Qed.

Lemma append_assoc a b c : (a +:+ b) +:+ c = a +:+ (b +:+ c).
Proof. induction a as [|x a IH]; [done|]. by rewrite !append_cons, IH. Qed.

Lemma append_nil_r a : a +:+ "" = a.
Proof. induction a as [|x a IH]; [done|]. by rewrite append_cons, IH. Qed.

Lemma length_append a b :
  String.length (a +:+ b) = String.length a + String.length b.
Proof.
  induction a as [|x a IH]; [done|]. rewrite append_cons. cbn. by rewrite IH.
Qed.

Lemma rev_app_append a b : String.rev_app a b = String.rev a +:+ b.
Proof.
  revert b. induction a as [|x a IH]; intros b; [done|].
  unfold String.rev. cbn [String.rev_app].
  rewrite (IH (String x b)), (IH (String x "")).
  by rewrite append_assoc.
Qed.

Lemma rev_append a b : String.rev (a +:+ b) = String.rev b +:+ String.rev a.
Proof.
  induction a as [|x a IH].
  - change ("" +:+ b) with b. by rewrite append_nil_r.
  - rewrite append_cons. unfold String.rev in *. cbn [String.rev_app].
    rewrite (rev_app_append (a +:+ b)), (rev_app_append a).
    unfold String.rev. rewrite IH. by rewrite append_assoc.
Qed.

Lemma rev_involutive a : String.rev (String.rev a) = a.
Proof.
  induction a as [|x a IH]; [done|].
  change (String x a) with (String x "" +:+ a) at 1.
  rewrite rev_append, rev_append, IH. done.
Qed.

Lemma prefix_append_inv x y : String.prefix x y = true -> exists z, y = x +:+ z.
Proof.
  revert x. induction y as [|b y IH]; intros x H.
  - destruct x; [by exists ""|discriminate H].
  - destruct x as [|a x]; [by eexists|]. cbn [String.prefix] in H.
    destruct (ascii_dec a b) as [->|]; [|discriminate H].
    destruct (IH x H) as [z ->]. by exists z.
Qed.

Lemma prefix_append x z : String.prefix x (x +:+ z) = true.
Proof.
  induction x as [|a x IH].
  - by destruct z.
  - rewrite append_cons. cbn. by destruct (ascii_dec a a).
Qed.

Lemma append_inj_r a b s : a +:+ s = b +:+ s -> a = b.
Proof.
  intros H. apply (f_equal String.rev) in H. rewrite !rev_append in H.
  apply (inj _) in H. apply (f_equal String.rev) in H.
  by rewrite !rev_involutive in H.
Qed.

Lemma substring_append a b :
  String.substring 0 (String.length a) (a +:+ b) = a.
Proof.
  induction a as [|x a IH]; [by destruct b|].
  rewrite append_cons. cbn. by rewrite IH.
Qed.

(** A name ends with [suffix] when it is a stem followed by [suffix]. *)
Lemma ends_with_iff suffix s :
  ends_with suffix s = true <-> exists b, s = b +:+ suffix.
Proof.
  unfold ends_with. split.
  - intros [z Hz]%prefix_append_inv. exists (String.rev z).
    apply (f_equal String.rev) in Hz.
    by rewrite rev_involutive, rev_append, rev_involutive in Hz.
  - intros [b ->]. rewrite rev_append. apply prefix_append.
Qed.

Lemma split_last_dot_pug b : Path.split_last_dot (b +:+ ".pug") = Some (b, ".pug").
Proof.
  induction b as [|x b IH]; [reflexivity|].
  rewrite append_cons. cbn [Path.split_last_dot]. by rewrite IH.
Qed.

(** [replace-ext] on the name of a page. *)
Lemma replace_ext_pug b :
  b <> "" -> Path.replace_ext ".html" (b +:+ ".pug") = b +:+ ".html".
Proof.
  intros Hb. unfold Path.replace_ext, Path.stem, Path.extname.
  rewrite split_last_dot_pug.
  destruct b as [|x b]; [done|].
  assert (E : (String x b +:+ ".pug" =? "..")%string = false).
  { apply String.eqb_neq. intros H. apply (f_equal String.length) in H.
    rewrite length_append in H. cbn in H. lia. }
  rewrite E, length_append.
  replace (String.length (String x b) + String.length ".pug" - String.length ".pug")
    with (String.length (String x b)) by (cbn; lia).
  by rewrite substring_append.
Qed.

Lemma visible_nonempty b : visible b = true -> b <> "".
Proof. by intros H ->. Qed.

(** The names that ['*.pug'] matches: a visible stem followed by [.pug]. *)
Lemma page_name_iff n :
  seg_match (StarExt ["pug"]) n = true <->
  exists b, n = b +:+ ".pug" /\ visible b = true.
Proof.
  cbn [seg_match has_ext existsb]. rewrite orb_false_r, andb_true_iff.
  change ("." +:+ "pug") with ".pug". rewrite ends_with_iff. split.
  - intros [Hv [b ->]]. exists b. split; [done|].
    destruct b as [|x b]; [done|]. exact Hv.
  - intros (b & -> & Hv). split; [|by exists b].
    destruct b as [|x b]; [done|]. exact Hv.
Qed.

(** What one file establishes and every file keeps, while [I] holds of
    every world on the way, holds at the end of a stream that does not
    fail. *)
Lemma feed_settles (I Q : world -> Prop) k vs w v :
  v ∈ vs -> I w ->
  (forall v' u, v' ∈ vs -> I u -> I (k false v' u).2) ->
  (forall u, I u -> Q (k false v u).2) ->
  (forall v' u, v' ∈ vs -> I u -> Q u -> Q (k false v' u).2) ->
  (forall v' u, (k false v' u).1 <> Fatal) ->
  Q (feed k vs w).2.
Proof.
  intros Hv Hw HI Hest Hkeep Hok.
  assert (Hq : forall vs' u, (forall x, x ∈ vs' -> x ∈ vs) ->
            I u -> Q u -> Q (feed k vs' u).2).
  { induction vs' as [|x vs' IH]; intros u Hsub Hu Hqu; [done|].
    cbn [feed].
    pose proof (HI x u (Hsub x (list_elem_of_here _ _)) Hu) as Hu'.
    pose proof (Hkeep x u (Hsub x (list_elem_of_here _ _)) Hu Hqu) as Hq'.
    pose proof (Hok x u) as Hnf.
    destruct (k false x u) as [r u']. cbn [fst snd] in *.
    assert (Q (feed k vs' u').2).
    { apply IH; [|done|done]. intros y Hy. apply Hsub. by right. }
    by destruct r. }
  assert (Hgo : forall vs' u, (forall x, x ∈ vs' -> x ∈ vs) -> v ∈ vs' ->
            I u -> Q (feed k vs' u).2).
  { induction vs' as [|x vs' IH]; intros u Hsub Hin Hu.
    - by apply elem_of_nil in Hin.
    - cbn [feed].
      pose proof (HI x u (Hsub x (list_elem_of_here _ _)) Hu) as Hu'.
      pose proof (Hok x u) as Hnf.
      assert (Hsub' : forall y, y ∈ vs' -> y ∈ vs).
      { intros y Hy. apply Hsub. by right. }
      apply elem_of_cons in Hin as [<-|Hin].
      + pose proof (Hest u Hu) as Hq'.
        destruct (k false v u) as [r u']. cbn [fst snd] in *.
        assert (Q (feed k vs' u').2) by by apply Hq.
        by destruct r.
      + destruct (k false x u) as [r u']. cbn [fst snd] in *.
        assert (Q (feed k vs' u').2) by by apply IH.
        by destruct r. }
  by apply Hgo.
Qed.

Section Pages.

Variable T : toolchain.

Local Abbreviation html_stream :=
  (src [pages_glob] None
     .| plumber .| pug T .| htmlprettify T " " 2 .| dest ["build"] .| server_stream).

(** What one page changes: nothing, or the file that has its name in
    ['build']. *)
Lemma html_chain_fs name c u q :
  fs (chain html_stream false
        {| base := ["source"; "pages"]; relative := [name]; contents := c |} u).2 !! q
  = match pug_render T (fs u) ["source"; "pages"; name] c ≫= html_prettify T " " 2 with
    | Some h =>
        if decide (q = ["build"; Path.replace_ext ".html" name]) then Some h
        else fs u !! q
    | None => fs u !! q
    end.
Proof.
  rewrite html_chain.
  destruct (pug_render T (fs u) _ c) as [c1|]; cbn; [|done].
  destruct (html_prettify T " " 2 c1) as [h|]; cbn; [|done].
  destruct (decide (q = _)) as [->|Hne].
  - by rewrite lookup_insert_eq.
  - by rewrite lookup_insert_ne.
Qed.

Lemma html_chain_outside name c u w :
  same_outside ["build"] (fs u) (fs w) ->
  same_outside ["build"]
    (fs (chain html_stream false
           {| base := ["source"; "pages"]; relative := [name]; contents := c |} u).2)
    (fs w).
Proof.
  intros Hu q Hq. rewrite html_chain_fs.
  destruct (_ ≫= _); [|by apply Hu].
  destruct (decide _) as [->|]; [done|by apply Hu].
Qed.


End Pages.
(** ** A change of a partial *)

Section Partials.

Variable T : toolchain.

Local Abbreviation html_stream :=
  (src [pages_glob] None
     .| plumber .| pug T .| htmlprettify T " " 2 .| dest ["build"] .| server_stream).

(** The logs of a world only grow when a page goes through the chain of
    [html], by the output that is written or by the error that is
    reported. *)
Lemma html_chain_logs name c u :
  exists lw lc,
    written (chain html_stream false
               {| base := ["source"; "pages"]; relative := [name]; contents := c |} u).2
      = written u ++ lw /\
    console (chain html_stream false
               {| base := ["source"; "pages"]; relative := [name]; contents := c |} u).2
      = console u ++ lc /\
    match pug_render T (fs u) ["source"; "pages"; name] c with
    | None => lw = [] /\ lc = [("gulp-pug", ["source"; "pages"; name])]
    | Some c1 =>
        match html_prettify T " " 2 c1 with
        | None =>
            lw = [] /\
            lc = [("gulp-html-prettify",
                   ["source"; "pages"; Path.replace_ext ".html" name])]
        | Some _ => lw = [ ["build"; Path.replace_ext ".html" name] ] /\ lc = []
        end
    end.
Proof.
  rewrite html_chain.
  destruct (pug_render T (fs u) _ c) as [c1|]; cbn.
  - destruct (html_prettify T " " 2 c1) as [h|]; cbn.
    + eexists _, []. split; [reflexivity|]. split; [by rewrite app_nil_r|done].
    + eexists [], _. split; [by rewrite app_nil_r|]. split; [reflexivity|done].
  - eexists [], _. split; [by rewrite app_nil_r|]. split; [reflexivity|done].
Qed.


(** Every page of ['source/pages'] is compiled by [html], whatever the
    tools do. *)
Lemma html_compiles_every_page w b c :
  visible b = true ->
  fs w !! ["source"; "pages"; b +:+ ".pug"] = Some c ->
  page_compiled T w (html T w).2 b c.
Proof.
  intros Hb Hc.
  set (out := ["build"; b +:+ ".html"]).
  set (vb := {| base := ["source"; "pages"]; relative := [b +:+ ".pug"];
                contents := c |}).
  assert (Hrep : Path.replace_ext ".html" (b +:+ ".pug") = b +:+ ".html")
    by by apply replace_ext_pug, visible_nonempty.
  set (I := fun u : world =>
              same_outside ["build"] (fs u) (fs w) /\
              exists lw lc, written u = written w ++ lw /\
                            console u = console w ++ lc).
  assert (HI : forall v u, v ∈ source html_stream w -> I u ->
            I (chain html_stream false v u).2).
  { intros v u (n & c' & _ & _ & ->)%html_source [Hs (lw & lc & Hw & Hl)].
    split; [by apply html_chain_outside|].
    destruct (html_chain_logs n c' u) as (lw' & lc' & -> & -> & _).
    exists (lw ++ lw'), (lc ++ lc'). by rewrite Hw, Hl, <- !app_assoc. }
  assert (Hest : forall u, I u -> page_compiled T w (chain html_stream false vb u).2 b c).
  { intros u [Hs (lw & lc & Hw & Hl)].
    destruct (html_chain_logs (b +:+ ".pug") c u) as (lw' & lc' & Hw' & Hl' & Hm).
    exists u, (lw ++ lw'), (lc ++ lc'). split; [done|].
    fold vb in Hw', Hl'. rewrite Hw', Hl', Hw, Hl, <- !app_assoc.
    split; [done|]. split; [done|].
    pose proof (html_chain_fs T (b +:+ ".pug") c u out) as Hfs. fold vb in Hfs.
    rewrite Hrep in Hm, Hfs.
    destruct (pug_render T (fs u) _ c) as [c1|]; cbn [mbind option_bind] in Hfs.
    - destruct (html_prettify T " " 2 c1) as [h|]; cbn [mbind option_bind] in Hfs.
      + destruct Hm as [-> ->]. rewrite decide_True in Hfs by done.
        split; [done|]. apply elem_of_app. right. by apply list_elem_of_singleton.
      + destruct Hm as [-> ->]. apply elem_of_app. right.
        by apply list_elem_of_singleton.
    - destruct Hm as [-> ->]. apply elem_of_app. right.
      by apply list_elem_of_singleton. }
  unfold html. rewrite returns_found by reflexivity.
  apply (feed_settles I (fun u => page_compiled T w u b c) _ _ _ vb).
  - apply html_source. exists (b +:+ ".pug"), c. split; [done|].
    split; [|done]. apply page_name_iff. by exists b.
  - split; [done|]. exists [], []. by rewrite !app_nil_r.
  - exact HI.
  - exact Hest.
  - intros v u Hv HIu (u0 & lw & lc & Hs0 & Hw & Hl & Hm).
    pose proof Hv as (n & c' & Hc' & (b' & -> & Hb')%page_name_iff & ->)%html_source.
    destruct (decide (b' = b)) as [->|Hne].
    { assert (c' = c) as -> by congruence. by apply Hest. }
    destruct (html_chain_logs (b' +:+ ".pug") c' u) as (lw' & lc' & Hw' & Hl' & _).
    exists u0, (lw ++ lw'), (lc ++ lc'). split; [done|].
    rewrite Hw', Hl', Hw, Hl, <- !app_assoc. split; [done|]. split; [done|].
    assert (Hfs : fs (chain html_stream false
                        {| base := ["source"; "pages"]; relative := [b' +:+ ".pug"];
                           contents := c' |} u).2 !! out = fs u !! out).
    { rewrite html_chain_fs.
      destruct (pug_render T (fs u) _ c' ≫= _); [|done].
      rewrite decide_False; [done|].
      rewrite replace_ext_pug by by apply visible_nonempty.
      intros [= E]. by apply append_inj_r in E. }
    unfold out in Hfs.
    destruct (pug_render T (fs u0) _ c) as [c1|].
    + destruct (html_prettify T " " 2 c1) as [h|].
      * destruct Hm as [Hh Hin]. split; [by rewrite Hfs|].
        apply elem_of_app. by left.
      * apply elem_of_app. by left.
    + apply elem_of_app. by left.
  - apply html_chain_not_fatal.
Qed.

(** [html] takes its input from ['source/pages'] alone: what it writes and
    what it reports is about the pages there. *)
Lemma html_only_pages w : only_pages w (html T w).2.
Proof.
  unfold html. rewrite returns_found by reflexivity.
  apply (feed_keeps (only_pages w)).
  - intros v u (n & c & Hc & (b & -> & Hb)%page_name_iff & ->)%html_source
      (lw & lc & Hw & Hl & Hlw & Hlc).
    destruct (html_chain_logs (b +:+ ".pug") c u) as (lw' & lc' & Hw' & Hl' & Hm).
    rewrite replace_ext_pug in Hm by by apply visible_nonempty.
    exists (lw ++ lw'), (lc ++ lc').
    rewrite Hw', Hl', Hw, Hl, <- !app_assoc. split; [done|]. split; [done|].
    assert (Hpage : is_Some (fs w !! ["source"; "pages"; b +:+ ".pug"]))
      by by eexists.
    split.
    + intros q [Hq|Hq]%elem_of_app; [by apply Hlw|].
      exists b. split; [|done].
      destruct (pug_render T (fs u) _ c) as [c1|];
        [destruct (html_prettify T " " 2 c1)|];
        destruct Hm as [-> ->];
        try (by apply elem_of_nil in Hq).
      by apply list_elem_of_singleton in Hq.
    + intros e [He|He]%elem_of_app; [by apply Hlc|].
      exists b. split; [done|]. split; [done|].
      destruct (pug_render T (fs u) _ c) as [c1|];
        [destruct (html_prettify T " " 2 c1)|];
        destruct Hm as [-> ->];
        try (by apply elem_of_nil in He);
        apply list_elem_of_singleton in He; auto.
  - exists [], []. rewrite !app_nil_r. split; [done|]. split; [done|].
    split; intros ? H; by apply elem_of_nil in H.
Qed.

(** C10: the template watcher of [serve] watches the pages
    (['source/pages/**/*.pug']) and the partials (['source/pug/**/*.pug']):
    adding, changing or removing a partial runs [html], then [reload], and
    nothing else.  The run compiles every page of ['source/pages'] again,
    whatever the tools do: pug and html-prettify are run on the page and
    their result is written to ['build'], or their error is reported; and
    [html] completes.  [html] itself takes its input from ['source/pages']
    alone: every file it writes and every error it reports is about a page
    there, none about the partial, which its glob does not match. *)
Theorem partial_change_recompiles_all_pages
    (m : gmap path bytes) (lk : list path) (k : event_name)
    (ds : path) (name : string) :
  In k [add; change; unlink] ->
  forallb visible ds = true ->
  seg_match (StarExt ["pug"]) name = true ->
  let partial := "source" :: "pug" :: ds ++ [name] in
  let ws := watchers (serve (fresh m lk)).2 in
  (exists r, ws !! 0 = Some r /\
     map Glob.show (globs r) = ["source/pages/**/*.pug"; "source/pug/**/*.pug"] /\
     action r = series [task Html; task Reload]) /\
  triggered ws k partial = [series [task Html; task Reload]] /\
  (forall tr s, reach (init (series [task Html; task Reload])) tr s ->
     precedes (Finish Html) (Start Reload) tr) /\
  (forall w, (html T w).1 = Done) /\
  (forall w b c,
     visible b = true ->
     fs w !! ["source"; "pages"; b +:+ ".pug"] = Some c ->
     page_compiled T w (html T w).2 b c) /\
  (forall w, only_pages w (html T w).2) /\
  matches pages_glob partial = false.
Proof.
  intros Hk Hds Hn partial ws.
  split; [eexists; repeat split; reflexivity|].
  split; [|split; [by apply sequence_ordered|]].
  - subst ws. rewrite serve_watchers. unfold triggered.
    assert (H1 : matches_any [ [Lit "source"; Lit "pages"; GlobStar; StarExt ["pug"]];
                               [Lit "source"; Lit "pug"; GlobStar; StarExt ["pug"]] ]
                             partial = true).
    { unfold matches_any. cbn [existsb]. subst partial.
      rewrite (matches_lit "source" _ ("pug" :: _)), matches_lit_ne by done.
      rewrite !matches_lit, matches_globstar_dirs; [done..|].
      cbn [matches]. by rewrite Hn. }
    assert (H2 : forall g, g <> "pug" ->
              matches_any [ [Lit "source"; Lit g; GlobStar; StarExt [g]] ] partial
              = false).
    { intros g Hg. unfold matches_any. cbn [existsb]. subst partial.
      by rewrite matches_lit, matches_lit_ne. }
    assert (H4 : matches_any [ [Lit "source"; Lit "img"; Star] ] partial = false).
    { unfold matches_any. cbn [existsb]. subst partial.
      by rewrite matches_lit, matches_lit_ne. }
    cbn [List.filter]. unfold fires. cbn [globs].
    rewrite H1, !H2, H4 by done.
    destruct Hk as [<-|[<-|[<-|[]]]]; reflexivity.
  - split; [apply html_done|]. split; [apply html_compiles_every_page|].
    split; [apply html_only_pages|].
    subst partial. by rewrite matches_lit, matches_lit_ne.
Qed.

End Partials.

(** ** What is left after an error of a tool *)

Section ToolErrors.

Variable T : toolchain.

(** X3: [style] on an existing entry file.  When less (or autoprefixer)
    rejects the stylesheet, nothing is written; when only the minifier
    fails, ['build/css/style.css'] is written and ['style.min.css'] is not.
    Either way the error is reported, no file reaches [server.stream()],
    and the task completes. *)
Theorem style_after_tool_error (w : world) (c : bytes) :
  fs w !! ["source"; "less"; "style.less"] = Some c ->
  (less_render T (fs w) ["source"; "less"; "style.less"] c = None ->
   style T w = (Done, report "gulp-less" ["source"; "less"; "style.less"] w)) /\
  (forall c1,
     less_render T (fs w) ["source"; "less"; "style.less"] c = Some c1 ->
     autoprefix T ["last 3 versions"] c1 = None ->
     style T w = (Done, report "gulp-postcss" ["source"; "less"; "style.css"] w)) /\
  (forall c1 c2,
     less_render T (fs w) ["source"; "less"; "style.less"] c = Some c1 ->
     autoprefix T ["last 3 versions"] c1 = Some c2 ->
     csso T c2 = None ->
     style T w =
       (Done, report "gulp-csso" ["build"; "css"; "style.css"]
                (write ["build"; "css"; "style.css"] c2 w)) /\
     fs (style T w).2 !! ["build"; "css"; "style.css"] = Some c2 /\
     fs (style T w).2 !! ["build"; "css"; "style.min.css"]
       = fs w !! ["build"; "css"; "style.min.css"] /\
     pushed (style T w).2 = pushed w).
Proof.
  intros Hc.
  pose proof (style_runs T w c Hc) as Hs.
  split; [|split].
  - intros H1. rewrite Hs.
    cbn [feed chain pipe]. plugins. by rewrite H1.
  - intros c1 H1 H2. rewrite Hs.
    cbn [feed chain pipe]. plugins. rewrite H1. cbn. by rewrite H2.
  - intros c1 c2 H1 H2 H3.
    assert (E : style T w =
      (Done, report "gulp-csso" ["build"; "css"; "style.css"]
               (write ["build"; "css"; "style.css"] c2 w))).
    { rewrite Hs.
      cbn [feed chain pipe]. plugins. rewrite H1. cbn. rewrite H2. cbn.
      by rewrite H3. }
    rewrite E. cbn [fst snd fs report write pushed].
    split; [done|]. split; [apply lookup_insert_eq|].
    split; [by apply lookup_insert_ne|done].
Qed.

(** X4: [buildJs] on an existing entry file.  When webpack fails, nothing
    is written; when only uglify fails, ['build/js/script.js'] is written
    and ['script.min.js'] is not.  The error is reported and the task
    completes. *)
Theorem buildJs_after_tool_error (w : world) (c : bytes) :
  fs w !! ["source"; "js"; "script.js"] = Some c ->
  (webpack_bundle T webpack_config (fs w) ["source"; "js"; "script.js"] c = None ->
   buildJs T w = (Done, report "webpack-stream" ["source"; "js"; "script.js"] w)) /\
  (forall c1,
     webpack_bundle T webpack_config (fs w) ["source"; "js"; "script.js"] c = Some c1 ->
     uglify_js T c1 = None ->
     buildJs T w =
       (Done, report "gulp-uglify" ["build"; "js"; "script.js"]
                (write ["build"; "js"; "script.js"] c1 w)) /\
     fs (buildJs T w).2 !! ["build"; "js"; "script.js"] = Some c1 /\
     fs (buildJs T w).2 !! ["build"; "js"; "script.min.js"]
       = fs w !! ["build"; "js"; "script.min.js"]).
Proof.
  intros Hc.
  pose proof (buildJs_runs T w c Hc) as Hs.
  split.
  - intros H1. rewrite Hs.
    cbn [feed chain pipe]. plugins. by rewrite H1.
  - intros c1 H1 H2.
    assert (E : buildJs T w =
      (Done, report "gulp-uglify" ["build"; "js"; "script.js"]
               (write ["build"; "js"; "script.js"] c1 w))).
    { rewrite Hs.
      cbn [feed chain pipe]. plugins. rewrite H1. cbn. by rewrite H2. }
    rewrite E. cbn [fst snd fs report write].
    split; [done|]. split; [apply lookup_insert_eq|by apply lookup_insert_ne].
Qed.

End ToolErrors.

(** The stylesheet of the sample project with a minifier that fails. *)
Lemma style_error_witness :
  fs (style failing_minifiers sample_world).2 !! ["build"; "css"; "style.css"]
    = Some sample_less /\
  fs (style failing_minifiers sample_world).2 !! ["build"; "css"; "style.min.css"]
    = None.
Proof.
  destruct (style_after_tool_error failing_minifiers sample_world sample_less)
    as (_ & _ & H).
  - vm_compute. reflexivity.
  - destruct (H sample_less sample_less) as (_ & H1 & H2 & _);
      [reflexivity..|].
    split; [exact H1|]. rewrite H2. vm_compute. reflexivity.
Defined.

(** The script of the sample project with a minifier that fails. *)
Lemma buildJs_error_witness :
  fs (buildJs failing_minifiers sample_world).2 !! ["build"; "js"; "script.js"]
    = Some (String.list_byte_of_string "let x = 1") /\
  fs (buildJs failing_minifiers sample_world).2 !! ["build"; "js"; "script.min.js"]
    = None.
Proof.
  destruct (buildJs_after_tool_error failing_minifiers sample_world
              (String.list_byte_of_string "let x = 1")) as (_ & H).
  - vm_compute. reflexivity.
  - destruct (H (String.list_byte_of_string "let x = 1")) as (_ & H1 & H2);
      [reflexivity..|].
    split; [exact H1|]. rewrite H2. vm_compute. reflexivity.
Defined.

(** ** What [images] leaves alone *)

Section ImagesOnly.

Variable T : toolchain.

(** A file after [images]: as it was, or the optimized copy of the image
    at the same place below ['source/img']. *)
Lemma images_changed w q :
  fs (images T w).2 !! q = fs w !! q \/
  exists rel c c',
    q = "build" :: "img" :: rel /\
    matches images_glob ("source" :: "img" :: rel) = true /\
    fs w !! ("source" :: "img" :: rel) = Some c /\
    imagemin_buffer T images_use c = Some c' /\
    fs (images T w).2 !! q = Some c'.
Proof.
  unfold images. rewrite returns_found by reflexivity.
  apply (feed_keeps (fun u =>
    fs u !! q = fs w !! q \/
    exists rel c c',
      q = "build" :: "img" :: rel /\
      matches images_glob ("source" :: "img" :: rel) = true /\
      fs w !! ("source" :: "img" :: rel) = Some c /\
      imagemin_buffer T images_use c = Some c' /\
      fs u !! q = Some c')); [|by left].
  intros v u Hv Hu. rewrite images_chain.
  destruct (images_source _ _ Hv) as (rel & Hc & Hm & Hrel).
  destruct (imagemin_buffer T images_use (contents v)) as [c'|] eqn:E; [|done].
  cbn [snd fs write]. rewrite Hrel.
  destruct (decide ("build" :: "img" :: rel = q)) as [<-|Hne].
  - right. exists rel, (contents v), c'. by rewrite lookup_insert_eq.
  - by rewrite lookup_insert_ne.
Qed.

(** X5: whether it fails or not, [images] changes nothing but the mirrors of
    the images that exist: a file is as it was before, or it is, below
    ['build/img'], the optimized copy of the image at the same relative path
    below ['source/img'].  So no file is removed, and the output of an image
    that is gone from the sources stays as it was. *)
Theorem images_changes_only_mirrors (w : world) :
  (forall q,
     fs (images T w).2 !! q = fs w !! q \/
     exists rel c c',
       q = "build" :: "img" :: rel /\
       matches images_glob ("source" :: "img" :: rel) = true /\
       fs w !! ("source" :: "img" :: rel) = Some c /\
       imagemin_buffer T images_use c = Some c' /\
       fs (images T w).2 !! q = Some c') /\
  (forall q, is_Some (fs w !! q) -> is_Some (fs (images T w).2 !! q)) /\
  (forall rel,
     fs w !! ("source" :: "img" :: rel) = None ->
     fs (images T w).2 !! ("build" :: "img" :: rel)
       = fs w !! ("build" :: "img" :: rel)).
Proof.
  pose proof (images_changed w) as H.
  split; [exact H|]. split.
  - intros q [x Hx]. destruct (H q) as [->|(? & ? & c' & _ & _ & _ & _ & ->)];
      by eexists.
  - intros rel Hnone.
    destruct (H ("build" :: "img" :: rel)) as [E|(rel' & c & c' & [= <-] & _ & Hc & _)];
      [done|congruence].
Qed.

(** A glob whose literal segments are not hidden matches no path with a
    hidden segment. *)
Lemma matches_visible g p :
  Forall (fun s => match s with Lit l => visible l = true | _ => True end) g ->
  matches g p = true -> forallb visible p = true.
Proof.
  intros Hg. revert p. induction Hg as [|s g Hs Hg IH]; intros p Hm.
  - by destruct p.
  - destruct s as [l| |exts|].
    + destruct p as [|x p]; [done|].
      pose proof Hm as [-> Hm']%matches_lit_inv.
      cbn [forallb]. by rewrite Hs, (IH p).
    + destruct p as [|x p]; [done|]. cbn [matches seg_match] in Hm.
      apply andb_prop in Hm as [Hx Hm]. cbn [forallb]. by rewrite Hx, (IH p).
    + destruct p as [|x p]; [done|]. cbn [matches seg_match] in Hm.
      apply andb_prop in Hm as [[Hx _]%andb_prop Hm].
      cbn [forallb]. by rewrite Hx, (IH p).
    + apply matches_globstar_inv in Hm as (ds & q & -> & Hds & Hq).
      rewrite forallb_app, Hds. by apply IH.
Qed.

Lemma hidden_not_visible p : existsb hidden p = true -> forallb visible p = false.
Proof.
  induction p as [|x p IH]; [done|]. cbn [existsb forallb].
  intros [Hx|Hp]%orb_prop.
  - unfold visible. by rewrite Hx.
  - rewrite (IH Hp). apply andb_false_r.
Qed.

(** X12: the files that rest in a hidden place are passed over.  No glob
    of [copy], [images] or [html] has the [dot] option, so none of them
    matches a path with a segment that starts with a dot below ['source'];
    what [copy] and [images] would have made of such a file stays as it
    was. *)
Theorem hidden_files_are_skipped (w : world) (rel : path) :
  existsb hidden rel = true ->
  matches fonts_glob ("source" :: rel) = false /\
  matches images_glob ("source" :: rel) = false /\
  matches pages_glob ("source" :: rel) = false /\
  fs (copy w).2 !! ("build" :: rel) = fs w !! ("build" :: rel) /\
  fs (images T w).2 !! ("build" :: "img" :: rel) = fs w !! ("build" :: "img" :: rel).
Proof.
  intros Hh.
  assert (Hno : forall g pre,
            Forall (fun s => match s with Lit l => visible l = true | _ => True end) g ->
            matches g (pre ++ rel) = false).
  { intros g pre Hg. destruct (matches g (pre ++ rel)) eqn:E; [|done].
    apply (matches_visible g _ Hg) in E.
    rewrite forallb_app, (hidden_not_visible rel Hh) in E.
    by rewrite andb_false_r in E. }
  assert (Hf : forall pre, matches fonts_glob (pre ++ rel) = false).
  { intros pre. apply Hno. repeat constructor. }
  assert (Hi : forall pre, matches images_glob (pre ++ rel) = false).
  { intros pre. apply Hno. repeat constructor. }
  split; [exact (Hf ["source"])|]. split; [exact (Hi ["source"])|].
  split; [apply (Hno _ ["source"]); repeat constructor|]. split.
  - destruct (copy_spec w) as [_ ->].
    apply writes_lookup_other. intros v Hv E.
    destruct (copy_source _ _ Hv) as (rel' & _ & Hm & Hrel).
    rewrite Hrel in E. injection E as ->.
    specialize (Hf ["source"]). cbn [app] in Hf. congruence.
  - destruct (images_changed w ("build" :: "img" :: rel))
      as [E|(rel' & c & c' & [= <-] & Hm & _)]; [done|].
    specialize (Hi ["source"; "img"]). cbn [app] in Hi. congruence.
Qed.

End ImagesOnly.

(** ** Which changes the watchers of [serve] see *)

Lemma matches_lit2_inv x y g p :
  matches (Lit x :: Lit y :: g) p = true ->
  exists rest, p = x :: y :: rest /\ matches g rest = true.
Proof.
  destruct p as [|a p]; [done|]. intros [-> H]%matches_lit_inv.
  destruct p as [|b p]; [done|]. apply matches_lit_inv in H as [-> H].
  by exists p.
Qed.

(** A watcher of [serve] fires only for paths in its own directories. *)
Lemma fires_directory m lk r k p :
  In r (watchers (serve (fresh m lk)).2) -> fires r k p = true ->
  exists d rest, p = "source" :: d :: rest /\
    In (d, action r)
       [ ("pages", series [task Html; task Reload]);
         ("pug", series [task Html; task Reload]);
         ("less", series [task Style; task Reload]);
         ("js", series [task BuildJs; task Reload]);
         ("img", series [task Images; task Reload]) ].
Proof.
  rewrite serve_watchers. intros Hr [Hm _]%andb_prop.
  unfold matches_any in Hm. apply existsb_exists in Hm as (g & Hg & Hm).
  destruct Hr as [<-|[<-|[<-|[<-|[]]]]]; cbn [globs] in Hg;
    repeat (destruct Hg as [<-|Hg]; [|try done]);
    apply matches_lit2_inv in Hm as (rest & -> & _);
    eexists _, rest; (split; [reflexivity|]); cbn; tauto.
Qed.

Section WatchCover.

(** X6: what the watchers of [serve] see of the inputs of the tasks.  A
    page of ['source/pages'], the stylesheet entry and the script entry are
    watched, each by the watcher that runs its task and then [reload].  A
    font that [copy] would copy is not watched: whatever happens to it, no
    task runs. *)
Theorem watchers_and_task_inputs
    (m : gmap path bytes) (lk : list path) (k : event_name) :
  let ws := watchers (serve (fresh m lk)).2 in
  (In k [add; change; unlink] ->
   (forall name, seg_match (StarExt ["pug"]) name = true ->
      triggered ws k ["source"; "pages"; name] = [series [task Html; task Reload]]) /\
   triggered ws k ["source"; "less"; "style.less"]
     = [series [task Style; task Reload]] /\
   triggered ws k ["source"; "js"; "script.js"]
     = [series [task BuildJs; task Reload]]) /\
  (forall p, matches fonts_glob p = true -> triggered ws k p = []).
Proof.
  intros ws. split.
  - intros Hk. split; [|split].
    + intros name Hn. subst ws. rewrite serve_watchers. unfold triggered.
      assert (H1 : matches_any
                [ [Lit "source"; Lit "pages"; GlobStar; StarExt ["pug"]];
                  [Lit "source"; Lit "pug"; GlobStar; StarExt ["pug"]] ]
                ["source"; "pages"; name] = true).
      { unfold matches_any. cbn [existsb].
        rewrite !matches_lit, matches_globstar_here; [done|].
        cbn [matches]. by rewrite Hn. }
      assert (H2 : forall d g, d <> "pages" ->
                matches_any [Lit "source" :: Lit d :: g] ["source"; "pages"; name]
                = false).
      { intros d g Hd. unfold matches_any. cbn [existsb].
        by rewrite matches_lit, matches_lit_ne. }
      cbn [List.filter]. unfold fires. cbn [globs].
      rewrite H1, !H2 by done.
      destruct Hk as [<-|[<-|[<-|[]]]]; reflexivity.
    + destruct Hk as [<-|[<-|[<-|[]]]]; vm_compute; reflexivity.
    + destruct Hk as [<-|[<-|[<-|[]]]]; vm_compute; reflexivity.
  - intros p Hp. unfold triggered.
    rewrite (filter_none (fun r => fires r k p) ws); [done|].
    intros r Hr. destruct (fires r k p) eqn:E; [|done].
    destruct (fires_directory m lk r k p Hr E) as (d & rest & -> & Hd).
    apply matches_lit2_inv in Hp as (rest' & [= -> _] & _).
    cbn [In] in Hd.
    repeat (destruct Hd as [Hd'|Hd]; [inversion Hd'|]). done.
Qed.

(** X7: a change of a file runs at most one watcher of [serve], and the
    directory below ['source'] says which: ['pages'] and ['pug'] run [html],
    ['less'] runs [style], ['js'] runs [buildJs] and ['img'] runs [images],
    each followed by [reload]; a change elsewhere runs nothing. *)
Theorem change_runs_at_most_one_watcher
    (m : gmap path bytes) (lk : list path) (k : event_name) (p : path) :
  let ws := watchers (serve (fresh m lk)).2 in
  length (triggered ws k p) <= 1 /\
  (forall a, In a (triggered ws k p) ->
     exists d rest, p = "source" :: d :: rest /\
       In (d, a)
          [ ("pages", series [task Html; task Reload]);
            ("pug", series [task Html; task Reload]);
            ("less", series [task Style; task Reload]);
            ("js", series [task BuildJs; task Reload]);
            ("img", series [task Images; task Reload]) ]).
Proof.
  intros ws.
  assert (Hdir : forall r, In r ws -> fires r k p = true ->
            exists d rest, p = "source" :: d :: rest /\
              In (d, action r)
                 [ ("pages", series [task Html; task Reload]);
                   ("pug", series [task Html; task Reload]);
                   ("less", series [task Style; task Reload]);
                   ("js", series [task BuildJs; task Reload]);
                   ("img", series [task Images; task Reload]) ]).
  { intros r Hr Hf. exact (fires_directory m lk r k p Hr Hf). }
  split.
  - unfold triggered. rewrite length_map. revert Hdir. subst ws.
    rewrite serve_watchers. intros Hdir. cbn [List.filter].
    repeat match goal with
           | |- context [if fires ?r k p then _ else _] =>
               let E := fresh "E" in
               destruct (fires r k p) eqn:E;
               [apply Hdir in E; [|cbn; tauto] |]
           end;
      cbn [length]; try lia.
    all: repeat match goal with
                | H : exists _ _, _ |- _ => destruct H as (? & ? & ? & H)
                end;
      subst; cbn in *;
      repeat match goal with
             | H : _ :: _ = _ :: _ |- _ => injection H as ? ?; subst
             end;
      intuition congruence.
  - intros a Ha. unfold triggered in Ha. apply in_map_iff in Ha as (r & <- & Hr).
    apply filter_In in Hr as [Hr Hf]. by apply Hdir.
Qed.

End WatchCover.

(** A watcher with a glob ['source/d/**/*.e'] runs for every visible file
    with the extension [e] below ['source/d'], at any depth. *)
Lemma triggered_below m lk k d e a ds name :
  In k [add; change; unlink] ->
  In (d, e, a)
     [ ("pages", "pug", series [task Html; task Reload]);
       ("pug", "pug", series [task Html; task Reload]);
       ("less", "less", series [task Style; task Reload]);
       ("js", "js", series [task BuildJs; task Reload]) ] ->
  forallb visible ds = true ->
  seg_match (StarExt [e]) name = true ->
  triggered (watchers (serve (fresh m lk)).2) k ("source" :: d :: ds ++ [name]) = [a].
Proof.
  intros Hk Hd Hds Hn. rewrite serve_watchers.
  assert (Hg : matches [GlobStar; StarExt [e]] (ds ++ [name]) = true).
  { apply matches_globstar_dirs; [done|]. cbn [matches]. by rewrite Hn. }
  unfold triggered. cbn [List.filter]. unfold fires, matches_any.
  cbn [globs existsb].
  cbn in Hd. destruct Hd as [E|[E|[E|[E|[]]]]]; injection E as <- <- <-;
    rewrite !(matches_lit "source"), ?matches_lit, ?Hg, !matches_lit_ne by done;
    destruct Hk as [<-|[<-|[<-|[]]]]; reflexivity.
Qed.

Section WatchedNotCompiled.

Variable T : toolchain.

(** X15: the watchers of [serve] look further than the tasks they run.  A
    page in a subdirectory of ['source/pages'] is watched: adding, changing
    or removing it runs [html] and [reload]; but [html] takes the pages of
    ['source/pages'] itself only, so it never writes the page below
    ['build'].  Likewise every [.less] file below ['source/less'] runs
    [style] and every [.js] file below ['source/js'] runs [buildJs], while
    the two tasks are handed their one entry file only. *)
Theorem watched_wider_than_compiled
    (m : gmap path bytes) (lk : list path) (k : event_name)
    (ds : path) (name : string) :
  let ws := watchers (serve (fresh m lk)).2 in
  In k [add; change; unlink] ->
  forallb visible ds = true ->
  (seg_match (StarExt ["pug"]) name = true -> ds <> [] ->
   triggered ws k ("source" :: "pages" :: ds ++ [name])
     = [series [task Html; task Reload]] /\
   matches pages_glob ("source" :: "pages" :: ds ++ [name]) = false /\
   forall w, fs (html T w).2 !! ("build" :: ds ++ [Path.replace_ext ".html" name])
             = fs w !! ("build" :: ds ++ [Path.replace_ext ".html" name])) /\
  (seg_match (StarExt ["less"]) name = true -> ds ++ [name] <> ["style.less"] ->
   triggered ws k ("source" :: "less" :: ds ++ [name])
     = [series [task Style; task Reload]] /\
   matches [Lit "source"; Lit "less"; Lit "style.less"]
           ("source" :: "less" :: ds ++ [name]) = false) /\
  (seg_match (StarExt ["js"]) name = true -> ds ++ [name] <> ["script.js"] ->
   triggered ws k ("source" :: "js" :: ds ++ [name])
     = [series [task BuildJs; task Reload]] /\
   matches [Lit "source"; Lit "js"; Lit "script.js"]
           ("source" :: "js" :: ds ++ [name]) = false).
Proof.
  intros ws Hk Hds. split; [|split].
  - intros Hn Hne. split; [|split].
    + apply (triggered_below m lk k "pages" "pug"); [done|cbn; tauto|done|done].
    + destruct ds as [|d ds]; [done|]. rewrite !matches_lit.
      cbn [app matches]. destruct ds; cbn [app]; by rewrite andb_false_r.
    + intros w. unfold html. rewrite returns_found by reflexivity.
      apply (feed_keeps (fun u =>
               fs u !! ("build" :: ds ++ [Path.replace_ext ".html" name])
               = fs w !! ("build" :: ds ++ [Path.replace_ext ".html" name]))); [|done].
      intros v u (n & c & _ & _ & ->)%html_source Hu.
      rewrite html_chain. 
      destruct (pug_render T (fs u) _ c) as [c1|]; cbn; [|done].
      destruct (html_prettify T " " 2 c1) as [h|]; cbn; [|done].
      rewrite lookup_insert_ne; [done|].
      intros [= E]. destruct ds as [|d [|d' ds]]; [done|done|done].
  - intros Hn Hne. split.
    + apply (triggered_below m lk k "less" "less"); [done|cbn; tauto|done|done].
    + destruct (matches _ _) eqn:E; [|done].
      apply (matches_literal ["source"; "less"; "style.less"]) in E.
      injection E as E. done.
  - intros Hn Hne. split.
    + apply (triggered_below m lk k "js" "js"); [done|cbn; tauto|done|done].
    + destruct (matches _ _) eqn:E; [|done].
      apply (matches_literal ["source"; "js"; "script.js"]) in E.
      injection E as E. done.
Qed.

End WatchedNotCompiled.

(** ** Running a task again, and [reload] *)

Section Reruns.

Variable T : toolchain.


Lemma task_keeps_reloads t w :
  In t [Html; Style; BuildJs; Images] -> reloads (body T t w).2 = reloads w.
Proof.
  intros Ht. cbn in Ht. destruct Ht as [<-|[<-|[<-|[<-|[]]]]]; cbn [body];
    unfold html, style, buildJs, images;
    (apply (returns_keeps (fun u => reloads u = reloads w)); [|done]);
    intros v u _ Hu; try rewrite images_chain; cbn [chain pipe src].
  - plugins. destruct (pug_render T (fs u) _ _); cbn; [|done].
    by destruct (html_prettify T " " 2 _).
  - plugins. destruct (less_render T (fs u) _ _); cbn; [|done].
    destruct (autoprefix T _ _); cbn; [|done].
    by destruct (csso T _).
  - plugins. destruct (webpack_bundle T _ (fs u) _ _); cbn; [|done].
    by destruct (uglify_js T _).
  - by destruct (imagemin_buffer T images_use (contents v)).
Qed.

Lemma watch_action_explored t :
  In t [Html; Style; BuildJs; Images] ->
  explore (fun tr r =>
             bool_decide (tr ∈ watch_runs t) &&
             implb (bool_decide (outcome r = Some true))
                   (bool_decide (Finish Reload ∈ tr)))
          6 [] (init (series [task t; task Reload])) = true.
Proof.
  intros Ht. cbn in Ht.
  destruct Ht as [<-|[<-|[<-|[<-|[]]]]]; vm_compute; reflexivity.
Qed.

(** X9: the action of a watcher, [series(t, reload)] for [t] one of [html],
    [style], [buildJs] and [images].  [reload] is called once, and only
    after [t] has completed: when [t] fails, the browsers are not reloaded
    and the action does not complete.  As [html] completes even when a
    template does not compile, its action always ends with the reload. *)
Theorem reload_follows_completed_task (t : taskname) (w : world) :
  In t [Html; Style; BuildJs; Images] ->
  (forall tr r w',
     reach (init (series [task t; task Reload])) tr r ->
     apply_trace T tr w = Some w' ->
     (In (Finish Reload) tr ->
        (body T t w).1 = Done /\ reloads w' = S (reloads w)) /\
     (~ In (Finish Reload) tr -> reloads w' = reloads w)) /\
  ((body T t w).1 = Done ->
     exists w', completes T (series [task t; task Reload]) w w' /\
                reloads w' = S (reloads w)) /\
  ((body T t w).1 <> Done ->
     forall w', ~ completes T (series [task t; task Reload]) w w') /\
  (t = Html -> exists w', completes T (series [task t; task Reload]) w w').
Proof.
  intros Ht.
  pose proof (task_keeps_reloads t w Ht) as Hk.
  assert (Hsig : signals t = true).
  { cbn in Ht. by destruct Ht as [<-|[<-|[<-|[<-|[]]]]]. }
  assert (Hne : t <> Reload).
  { intros ->. cbn in Ht. intuition discriminate. }
  assert (H1 : forall tr r w',
     reach (init (series [task t; task Reload])) tr r ->
     apply_trace T tr w = Some w' ->
     (In (Finish Reload) tr ->
        (body T t w).1 = Done /\ reloads w' = S (reloads w)) /\
     (~ In (Finish Reload) tr -> reloads w' = reloads w)).
  { intros tr r w' Hr Hw.
    pose proof (explore_init _ _ _ (watch_action_explored t Ht) tr r Hr) as Hin.
    cbn beta in Hin. apply andb_prop in Hin as [Hin _].
    apply bool_decide_eq_true in Hin. unfold watch_runs in Hin.
    repeat (apply elem_of_cons in Hin as [->|Hin]);
      [..|by apply elem_of_nil in Hin].
    all: cbn [apply_trace apply_label mbind option_bind] in Hw;
      rewrite ?Hsig in Hw;
      cbn [mbind option_bind signals signal body reload] in Hw.
    all: destruct (body T t w) as [[] u] eqn:E; cbn [fst snd] in *;
      cbn [mbind option_bind] in Hw; try discriminate Hw.
    all: injection Hw as <-.
    all: split; [intros Hf; cbn [In] in Hf | intros Hnf].
    all: try (exfalso; intuition (discriminate || congruence)).
    all: try (cbn; congruence).
    all: try (split; [done|]; cbn; congruence).
    all: exfalso; apply Hnf; cbn; tauto. }
  assert (H2 : (body T t w).1 = Done ->
     exists w', completes T (series [task t; task Reload]) w w' /\
                reloads w' = S (reloads w)).
  { intros Hd.
    destruct (body T t w) as [r u] eqn:E. cbn [fst snd] in *. subst r.
    exists (count_reload u). split; [|cbn; congruence].
    exists [Start t; Finish t; Next; Start Reload; Finish Reload]. eexists.
    split; [|split].
    + cbn in Ht. destruct Ht as [<-|[<-|[<-|[<-|[]]]]];
        repeat (eapply reach_step; [vm_compute; auto 10|]); apply reach_refl.
    + reflexivity.
    + cbn [apply_trace apply_label mbind option_bind]. rewrite Hsig.
      cbn [mbind option_bind]. rewrite E. reflexivity. }
  split; [exact H1|]. split; [exact H2|]. split.
  - intros Hnd w' (tr & r & Hr & Ho & Hw).
    destruct (H1 tr r w' Hr Hw) as [Hf _].
    pose proof (explore_init _ _ _ (watch_action_explored t Ht) tr r Hr) as Hin.
    cbn beta in Hin. apply andb_prop in Hin as [_ Hin].
    rewrite bool_decide_true in Hin by done. cbn [implb] in Hin.
    apply bool_decide_eq_true, list_elem_of_In in Hin.
    apply Hnd. by apply Hf.
  - intros ->. destruct H2 as (w' & Hw' & _); [apply html_done|]. by exists w'.
Qed.

End Reruns.
(** ** [exports.default]: the build, then the server *)

Lemma default_serve_explored :
  explore (fun tr _ =>
             implb (bool_decide (Start Serve ∈ tr))
                   (let tr0 := take (length tr - 2) tr in
                    bool_decide (tr = tr0 ++ [Next; Start Serve])
                    && forallb quiet tr0
                    && bool_decide (finished tr0 ∈ build_orders)))
          20 [] (init exports_default) = true.
Proof. vm_compute. reflexivity. Qed.

Section Default.

Variable T : toolchain.

Lemma apply_trace_app tr1 tr2 w :
  apply_trace T (tr1 ++ tr2) w = apply_trace T tr1 w ≫= apply_trace T tr2.
Proof.
  revert w. induction tr1 as [|l tr1 IH]; intros w; [done|].
  cbn [app apply_trace]. destruct (apply_label T l w) as [u|]; cbn; [apply IH|done].
Qed.

(** The tasks of an order of [build_orders], one after the other, as a run
    of [exports.build]. *)
Lemma build_order_reached o :
  o ∈ build_orders ->
  exists tr r, reach (init exports_build) tr r /\ outcome r = Some true /\
               forallb quiet tr = true /\ finished tr = o /\
               exists r', reach (init exports_default) (tr ++ [Next; Start Serve]) r'.
Proof.
  intros Hin.
  pose (run_of := fun o : list taskname =>
          match o with
          | [c; a; b; x; y; z] =>
              [Start c; Finish c; Next; Start a; Finish a; Start b; Finish b; Next;
               Start x; Finish x; Start y; Finish y; Start z; Finish z]
          | _ => []
          end).
  exists (run_of o).
  unfold build_orders in Hin. cbn in Hin.
  repeat (apply elem_of_cons in Hin as [->|Hin]); [..|by apply elem_of_nil in Hin].
  all: cbn [run_of]; eexists; split;
    [repeat (eapply reach_step; [vm_compute; auto 10|]); apply reach_refl|].
  all: split; [reflexivity|]. all: split; [reflexivity|]. all: split; [reflexivity|].
  all: eexists; cbn [app];
    repeat (eapply reach_step; [vm_compute; auto 10|]); apply reach_refl.
Qed.

(** The complete runs of [exports.build] are the runs of its tasks one
    after the other, in one of the orders of [build_orders]. *)
Lemma completes_build_order w w' :
  completes T exports_build w w' <->
  exists o, o ∈ build_orders /\ run_tasks T o w = Some w'.
Proof.
  split.
  - intros (tr & r & Hr & Ho & Hw).
    pose proof (explore_init _ _ _ build_orders_explored tr r Hr) as H.
    cbn beta in H. rewrite bool_decide_true in H by done. cbn [implb] in H.
    apply andb_prop in H as [Hq Hin]. apply bool_decide_eq_true in Hin.
    exists (finished tr). split; [done|].
    by rewrite <- (apply_trace_run_tasks T tr w Hq).
  - intros (o & Hin & Hrun).
    destruct (build_order_reached o Hin) as (tr & r & Hr & Ho & Hq & <- & _).
    exists tr, r. split; [done|]. split; [done|].
    by rewrite (apply_trace_run_tasks T tr w Hq).
Qed.

(** X13: [exports.default] is the build and then the server, on a project
    with its two entry files (gulp refuses a missing file that is named
    without a wildcard, so the statement is about projects that have both).
    In a run in which [serve] is started, the build before it was complete
    and [serve] starts on what the build left; and every complete build can
    be followed by the start of [serve].  So after a build that fails (on
    [clean] or on [images]) [serve] is not started. *)
Theorem default_serves_a_complete_build (w : world) :
  is_Some (fs w !! ["source"; "less"; "style.less"]) ->
  is_Some (fs w !! ["source"; "js"; "script.js"]) ->
  (forall tr r w',
     reach (init exports_default) tr r ->
     apply_trace T tr w = Some w' ->
     In (Start Serve) tr ->
     exists w1, completes T exports_build w w1 /\ w' = (serve w1).2) /\
  (forall w1,
     completes T exports_build w w1 ->
     exists tr r, reach (init exports_default) tr r /\
                  In (Start Serve) tr /\
                  apply_trace T tr w = Some (serve w1).2).
Proof.
  intros _ _.
  assert (H1 : forall tr r w',
     reach (init exports_default) tr r ->
     apply_trace T tr w = Some w' ->
     In (Start Serve) tr ->
     exists w1, completes T exports_build w w1 /\ w' = (serve w1).2).
  { intros tr r w' Hr Hw Hs.
    pose proof (explore_init _ _ _ default_serve_explored tr r Hr) as H.
    cbn beta in H. rewrite bool_decide_true in H by by apply list_elem_of_In.
    cbn [implb] in H. cbv zeta in H.
    apply andb_prop in H as [[E Hq]%andb_prop Hin].
    apply bool_decide_eq_true in E, Hin.
    rewrite E, apply_trace_app, (apply_trace_run_tasks T _ w Hq) in Hw.
    destruct (run_tasks T _ w) as [w1|] eqn:Hrun; [|discriminate Hw].
    exists w1. split.
    - apply completes_build_order. by eexists.
    - cbn [mbind option_bind apply_trace apply_label signals signal body] in Hw.
      destruct (serve w1) as [[] u]; cbn in Hw |- *; congruence. }
  split; [exact H1|].
  intros w1 (o & Hin & Hrun)%completes_build_order.
  destruct (build_order_reached o Hin) as (tr & _ & _ & _ & Hq & <- & r' & Hr').
  exists (tr ++ [Next; Start Serve]), r'. split; [done|]. split.
  - apply in_or_app. right. cbn. tauto.
  - by rewrite apply_trace_app, (apply_trace_run_tasks T tr w Hq), Hrun.
Qed.

End Default.
(** ** [deploy] and the pipelines *)

Lemma no_deploy_explored c :
  In c [exports_build; exports_default;
        series [task Html; task Reload]; series [task Style; task Reload];
        series [task BuildJs; task Reload]; series [task Images; task Reload]] ->
  explore (fun tr _ => forallb (fun l => negb (bool_decide (names l = Some Deploy))) tr)
          20 [] (init c) = true.
Proof.
  intros Hc. cbn in Hc.
  destruct Hc as [<-|[<-|[<-|[<-|[<-|[<-|[]]]]]]]; vm_compute; reflexivity.
Qed.

Section Deploy.

Variable T : toolchain.

Lemma task_keeps_published n w :
  n <> Deploy -> published (body T n w).2 = published w.
Proof.
  intros Hn. destruct n; cbn [body]; try done.
  - unfold copy.
    apply (returns_keeps (fun u => published u = published w)); [|done].
    intros v u _ Hu. cbn [chain pipe src]. by plugins.
  - unfold html.
    apply (returns_keeps (fun u => published u = published w)); [|done].
    intros v u _ Hu. cbn [chain pipe src]. plugins.
    destruct (pug_render T (fs u) _ _); cbn; [|done].
    by destruct (html_prettify T " " 2 _).
  - unfold style.
    apply (returns_keeps (fun u => published u = published w)); [|done].
    intros v u _ Hu. cbn [chain pipe src]. plugins.
    destruct (less_render T (fs u) _ _); cbn; [|done].
    destruct (autoprefix T _ _); cbn; [|done].
    by destruct (csso T _).
  - unfold images.
    apply (returns_keeps (fun u => published u = published w)); [|done].
    intros v u _ Hu. rewrite images_chain.
    by destruct (imagemin_buffer T images_use (contents v)).
  - unfold buildJs.
    apply (returns_keeps (fun u => published u = published w)); [|done].
    intros v u _ Hu. cbn [chain pipe src]. plugins.
    destruct (webpack_bundle T _ (fs u) _ _); cbn; [|done].
    by destruct (uglify_js T _).
Qed.

Lemma trace_keeps_published tr w w' :
  forallb (fun l => negb (bool_decide (names l = Some Deploy))) tr = true ->
  apply_trace T tr w = Some w' -> published w' = published w.
Proof.
  revert w. induction tr as [|l tr IH]; intros w Hn Hw.
  - cbn in Hw. by injection Hw as <-.
  - cbn [forallb] in Hn. apply andb_prop in Hn as [Hl Hn].
    apply negb_true_iff, bool_decide_eq_false in Hl.
    cbn [apply_trace] in Hw.
    destruct (apply_label T l w) as [u|] eqn:E; [|discriminate Hw].
    cbn in Hw. rewrite (IH u Hn Hw). clear -E Hl.
    destruct l as [n|n|n|]; cbn [apply_label names] in *.
    + assert (Hd : n <> Deploy) by congruence.
      pose proof (task_keeps_published n w Hd) as Hp.
      destruct (signals n); [congruence|].
      destruct (body T n w) as [[] x]; cbn in *; congruence.
    + assert (Hd : n <> Deploy) by congruence.
      pose proof (task_keeps_published n w Hd) as Hp.
      destruct (body T n w) as [[] x]; cbn in *; congruence.
    + assert (Hd : n <> Deploy) by congruence.
      pose proof (task_keeps_published n w Hd) as Hp.
      destruct (body T n w) as [[] x]; cbn in *; congruence.
    + congruence.
Qed.

(** X14: nothing but [deploy] publishes, and [deploy] does nothing but
    publish.  No run of [exports.build], of [exports.default] or of the
    action of a watcher hands anything to gh-pages; [deploy] hands it the
    directory ['build'] as it is at that moment, without building it first:
    it writes and removes no file, and whether it completes is up to
    gh-pages alone. *)
Theorem only_deploy_publishes (w : world) :
  (forall c tr r w',
     In c [exports_build; exports_default;
           series [task Html; task Reload]; series [task Style; task Reload];
           series [task BuildJs; task Reload]; series [task Images; task Reload]] ->
     reach (init c) tr r -> apply_trace T tr w = Some w' ->
     published w' = published w) /\
  published (deploy T w).2 = published w ++ [["build"]] /\
  fs (deploy T w).2 = fs w /\
  ((deploy T w).1 = Done <-> ghpages_publish T (fs w) ["build"] = true).
Proof.
  split; [|split; [done|split; [done|]]].
  - intros c tr r w' Hc Hr Hw.
    apply (trace_keeps_published tr w w'); [|done].
    exact (explore_init _ _ _ (no_deploy_explored c Hc) tr r Hr).
  - unfold deploy. cbn. by destruct (ghpages_publish T (fs w) ["build"]).
Qed.

End Deploy.
(** ** What a complete build leaves below ['build'] *)

Lemma writes_lookup_cases key val m vs q :
  writes key val m vs !! q = m !! q \/ exists v, v ∈ vs /\ key v = q.
Proof.
  induction vs as [|x vs IH] using rev_ind; [by left|].
  rewrite writes_snoc. destruct (decide (key x = q)) as [E|E].
  - right. exists x. split; [|done]. apply elem_of_app. right.
    by apply list_elem_of_singleton.
  - rewrite lookup_insert_ne by done.
    destruct IH as [?|(v & ? & ?)]; [by left|].
    right. exists v. split; [|done]. apply elem_of_app. by left.
Qed.

Lemma built_from_under m q : built_from m q -> Path.under ["build"] q = true.
Proof.
  intros [(rel & -> & _)|[(rel & -> & _)|[(b & -> & _)|[[Hq _]|[Hq _]]]]];
    try done; cbn in Hq; intuition (subst; done).
Qed.

(** Whether a file is built from a source is a matter of the sources. *)
Lemma built_from_same_outside m m' q :
  same_outside ["build"] m m' -> built_from m q -> built_from m' q.
Proof.
  intros Hs [(rel & -> & Hm & Hx)|[(rel & -> & Hm & Hx)|[(b & -> & Hv & Hx)|[[Hq Hx]|[Hq Hx]]]]].
  - left. exists rel. rewrite <- (Hs ("source" :: rel)); done.
  - right; left. exists rel. rewrite <- (Hs ("source" :: "img" :: rel)); done.
  - right; right; left. exists b. rewrite <- (Hs ["source"; "pages"; b +:+ ".pug"]); done.
  - right; right; right; left. rewrite <- (Hs ["source"; "less"; "style.less"]); done.
  - right; right; right; right. rewrite <- (Hs ["source"; "js"; "script.js"]); done.
Qed.

Section FreshOutput.

Variable T : toolchain.

(** What a file task does to one file: nothing, or it writes the output of
    a source. *)
Lemma task_output n u q :
  In n [Copy; Images; Html; Style; BuildJs] ->
  fs (body T n u).2 !! q = fs u !! q \/ built_from (fs u) q.
Proof.
  intros Hn. cbn in Hn. destruct Hn as [<-|[<-|[<-|[<-|[<-|[]]]]]]; cbn [body].
  - destruct (copy_spec u) as [_ ->].
    destruct (writes_lookup_cases (fun v => "build" :: relative v) contents (fs u)
                (source (src [fonts_glob] (Some ["source"])) u) q)
      as [?|(v & Hv & <-)]; [by left|].
    destruct (copy_source _ _ Hv) as (rel & Hc & Hm & ->).
    right. left. exists rel. split; [done|]. split; [done|by eexists].
  - destruct (images_changed T u q) as [?|(rel & c & c' & -> & Hm & Hc & _)];
      [by left|].
    right. right. left. exists rel. split; [done|]. split; [done|by eexists].
  - unfold html. rewrite returns_found by reflexivity.
    apply (feed_keeps (fun x => fs x !! q = fs u !! q \/ built_from (fs u) q));
      [|by left].
    intros v x (name & c & Hc & (b & -> & Hb)%page_name_iff & ->)%html_source Hx.
    rewrite html_chain_fs.
    destruct (pug_render T (fs x) _ c ≫= _); [|done].
    destruct (decide _) as [->|]; [|done].
    right. right. right. left. exists b.
    rewrite replace_ext_pug by by apply visible_nonempty.
    split; [done|]. split; [done|by eexists].
  - destruct (fs u !! ["source"; "less"; "style.less"]) as [c|] eqn:Hc.
    + assert (Hb : forall q', In q' [ ["build"; "css"; "style.css"];
                                      ["build"; "css"; "style.min.css"] ] ->
                     built_from (fs u) q').
      { intros q' Hq'. right. right. right. left. split; [done|].
        rewrite Hc. by eexists. }
      rewrite (style_runs T u c Hc). clear Hc.
      cbn [feed chain pipe]. plugins.
      destruct (less_render T (fs u) _ c) as [c1|]; cbn; [|by left].
      destruct (autoprefix T _ c1) as [c2|]; cbn; [|by left].
      destruct (decide (q = ["build"; "css"; "style.css"])) as [->|H1];
        [right; apply Hb; cbn; tauto|].
      destruct (decide (q = ["build"; "css"; "style.min.css"])) as [->|H2];
        [right; apply Hb; cbn; tauto|].
      left. destruct (csso T c2); cbn; by rewrite ?lookup_insert_ne by done.
    + rewrite (style_not_found T u Hc). by left.
  - destruct (fs u !! ["source"; "js"; "script.js"]) as [c|] eqn:Hc.
    + assert (Hb : forall q', In q' [ ["build"; "js"; "script.js"];
                                      ["build"; "js"; "script.min.js"] ] ->
                     built_from (fs u) q').
      { intros q' Hq'. right. right. right. right. split; [done|].
        rewrite Hc. by eexists. }
      rewrite (buildJs_runs T u c Hc). clear Hc.
      cbn [feed chain pipe]. plugins.
      destruct (webpack_bundle T _ (fs u) _ c) as [c1|]; cbn; [|by left].
      destruct (decide (q = ["build"; "js"; "script.js"])) as [->|H1];
        [right; apply Hb; cbn; tauto|].
      destruct (decide (q = ["build"; "js"; "script.min.js"])) as [->|H2];
        [right; apply Hb; cbn; tauto|].
      left. destruct (uglify_js T c1); cbn; by rewrite ?lookup_insert_ne by done.
    + rewrite (buildJs_not_found T u Hc). by left.
Qed.

Lemma task_frame n u :
  In n [Copy; Images; Html; Style; BuildJs] ->
  same_outside ["build"] (fs (body T n u).2) (fs u).
Proof.
  intros Hn q Hq. destruct (task_output n u q Hn) as [?|Hb]; [done|].
  apply built_from_under in Hb. congruence.
Qed.

Lemma run_tasks_output l u u' q :
  (forall n, In n l -> In n [Copy; Images; Html; Style; BuildJs]) ->
  run_tasks T l u = Some u' ->
  fs u' !! q = fs u !! q \/ built_from (fs u) q.
Proof.
  revert u. induction l as [|n l IH]; intros u Hl Hrun.
  - injection Hrun as <-. by left.
  - apply run_tasks_cons_Some in Hrun as [_ Hrun].
    assert (Hn : In n [Copy; Images; Html; Style; BuildJs]) by (apply Hl; by left).
    destruct (IH _ (fun n' H => Hl n' (or_intror H)) Hrun) as [->|Hb].
    + by apply task_output.
    + right. by apply (built_from_same_outside _ _ q (task_frame n u Hn)).
Qed.

(** A complete run of [exports.build] changes no file outside ['build']. *)
Lemma complete_build_outside w w' :
  completes T exports_build w w' -> same_outside ["build"] (fs w') (fs w).
Proof.
  intros (s2 & s3 & H2 & H3 & Hrun)%completes_build.
  apply run_tasks_cons_Some in Hrun as [Hc Hrun]. cbn [body] in Hc, Hrun.
  assert (Hl : forall n, In n (s2 ++ s3) -> In n [Copy; Images; Html; Style; BuildJs]).
  { intros n [Hn|Hn]%in_app_or.
    - apply (Permutation_in _ H2) in Hn. cbn in *. tauto.
    - apply (Permutation_in _ H3) in Hn. cbn in *. tauto. }
  intros q Hq.
  destruct (run_tasks_output _ _ _ q Hl Hrun) as [->|Hb]; [by apply clean_frame|].
  apply built_from_under in Hb. congruence.
Qed.

(** X16: a complete run of [exports.build] leaves nothing stale.  As
    [clean] comes first, every file that is below ['build'] afterwards is
    the output of a source that exists: the mirror of a font or of an image,
    ['b.html'] for a page ['b.pug'], or one of the two outputs of the
    stylesheet or of the script.  And the run changes no file outside
    ['build']. *)
Theorem complete_build_leaves_no_stale_file (w w' : world) :
  completes T exports_build w w' ->
  (forall q, Path.under ["build"] q = true -> is_Some (fs w' !! q) ->
     built_from (fs w) q) /\
  (forall q, Path.under ["build"] q = false -> fs w' !! q = fs w !! q).
Proof.
  intros (s2 & s3 & H2 & H3 & Hrun)%completes_build.
  apply run_tasks_cons_Some in Hrun as [Hc Hrun]. cbn [body] in Hc, Hrun.
  assert (Hl : forall n, In n (s2 ++ s3) -> In n [Copy; Images; Html; Style; BuildJs]).
  { intros n [Hn|Hn]%in_app_or.
    - apply (Permutation_in _ H2) in Hn. cbn in *. tauto.
    - apply (Permutation_in _ H3) in Hn. cbn in *. tauto. }
  assert (Hs : same_outside ["build"] (fs (clean w).2) (fs w)).
  { intros q Hq. by apply clean_frame. }
  split.
  - intros q Hq [c Hc'].
    destruct (run_tasks_output _ _ _ q Hl Hrun) as [E|Hb].
    + rewrite Hc', (clean_done_absent w Hc q Hq) in E. done.
    + by apply (built_from_same_outside _ _ q Hs).
  - intros q Hq.
    destruct (run_tasks_output _ _ _ q Hl Hrun) as [->|Hb]; [by apply Hs|].
    apply built_from_under in Hb. congruence.
Qed.

End FreshOutput.

(** ** When the build pipeline completes *)

Section BuildCompletes.

Variable T : toolchain.

(** A task of a run that completed was complete in a world with the
    sources of the first. *)
Lemma run_tasks_Done_at n l a b :
  (forall n', In n' l -> tame (region n') (body T n') /\ inside (region n')) ->
  In n l -> run_tasks T l a = Some b ->
  exists x, same_outside ["build"] (fs a) (fs x) /\ (body T n x).1 = Done.
Proof.
  revert a. induction l as [|m l IH]; intros a Ht Hn Hb; [done|].
  apply run_tasks_cons_Some in Hb as [Hm Hb].
  destruct Hn as [->|Hn].
  - exists a. by split.
  - destruct (IH (body T m a).2) as (x & Hx & Hd); [|done|done|].
    { intros n' Hn'. apply Ht. by right. }
    exists x. split; [|done].
    destruct (Ht m) as [Htm Him]; [by left|].
    intros q Hq. rewrite <- (Hx q Hq). symmetry. by apply tame_frame_build.
Qed.

Lemma images_done_iff w :
  (images T w).1 = Done <->
  forall p c, matches images_glob p = true -> fs w !! p = Some c ->
              is_Some (imagemin_buffer T images_use c).
Proof.
  split.
  - intros Hd p c Hm Hc.
    destruct (imagemin_buffer T images_use c) eqn:E; [by eexists|].
    rewrite (images_not_optimized T w p c Hm Hc E) in Hd. done.
  - intros Hall. by destruct (images_all_optimized T w Hall).
Qed.

(** X10: with the two entry files in place (gulp refuses a missing file
    that is named without a wildcard, so the statement is about projects
    that have both), [exports.build] can run to completion exactly when
    [clean] can remove what is below ['build'] and imagemin succeeds on
    every image: these are the only two errors that stop the build, since
    [copy] does not fail and plumber swallows the errors of the
    compilers. *)
Theorem build_completes_iff (w : world) :
  is_Some (fs w !! ["source"; "less"; "style.less"]) ->
  is_Some (fs w !! ["source"; "js"; "script.js"]) ->
  (exists w', completes T exports_build w w') <->
  (forall p, p ∈ locked w -> Path.under ["build"] p = true -> fs w !! p = None) /\
  (forall p c, matches images_glob p = true -> fs w !! p = Some c ->
               is_Some (imagemin_buffer T images_use c)).
Proof.
  intros Hless Hjs. rewrite <- clean_done, <- images_done_iff. split.
  - intros (w' & (s2 & s3 & b & H2 & _ & Hc & Hb & _)%completes_build_stages).
    split; [done|].
    destruct (stage2_like T s2 H2) as (_ & Ht2 & _).
    destruct (run_tasks_Done_at Images s2 (clean w).2 b Ht2) as (x & Hx & Hd);
      [|done|].
    { apply (Permutation_in _ (Permutation_sym H2)). right. by left. }
    destruct (tame_images T) as [_ HS].
    destruct (HS w x) as [-> _]; [|done].
    intros q Hq. rewrite <- (Hx q Hq). symmetry. by apply clean_frame.
  - intros [Hc Hi].
    assert (Hrun : is_Some (run_tasks T [Clean; Copy; Images; Html; Style; BuildJs] w)).
    { destruct (run_tasks T [Clean; Copy; Images; Html; Style; BuildJs] w) as [u|] eqn:E;
        [by eexists|]. exfalso.
      assert (Hcopy : forall u, (copy u).1 = Done) by (intros u; apply copy_spec).
      assert (Himg : (images T (copy (clean w).2).2).1 = Done).
      { destruct (tame_images T) as [_ HS].
        destruct (HS w (copy (clean w).2).2) as [<- _]; [|done].
        intros q Hq. rewrite <- (clean_frame w q Hq).
        by apply (tame_frame_outside (region Copy) copy (clean w).2
                    (inside_region Copy ltac:(done) ltac:(done) ltac:(done)) tame_copy). }
      cbn [run_tasks body] in E.
      pose proof (clean_frame w) as F1.
      destruct (clean w) as [[] u1]; try done. cbn [snd] in Himg, F1.
      specialize (Hcopy u1).
      pose proof (task_frame T Copy u1 ltac:(cbn; tauto)) as F2. cbn [body] in F2.
      destruct (copy u1) as [[] u2]; try done. cbn [snd] in Himg, F2.
      pose proof (task_frame T Images u2 ltac:(cbn; tauto)) as F3. cbn [body] in F3.
      destruct (images T u2) as [[] u3]; try done. cbn [snd] in F3.
      pose proof (html_done T u3) as Hh.
      pose proof (task_frame T Html u3 ltac:(cbn; tauto)) as F4. cbn [body] in F4.
      destruct (html T u3) as [[] u4]; try done. cbn [snd] in F4.
      assert (Hst : (style T u4).1 = Done).
      { apply style_done.
        by rewrite (F4 ["source"; "less"; "style.less"] eq_refl),
                   (F3 ["source"; "less"; "style.less"] eq_refl),
                   (F2 ["source"; "less"; "style.less"] eq_refl),
                   (F1 ["source"; "less"; "style.less"] eq_refl). }
      pose proof (task_frame T Style u4 ltac:(cbn; tauto)) as F5. cbn [body] in F5.
      destruct (style T u4) as [[] u5]; try done. cbn [snd] in F5.
      assert (Hj : (buildJs T u5).1 = Done).
      { apply buildJs_done.
        by rewrite (F5 ["source"; "js"; "script.js"] eq_refl),
                   (F4 ["source"; "js"; "script.js"] eq_refl),
                   (F3 ["source"; "js"; "script.js"] eq_refl),
                   (F2 ["source"; "js"; "script.js"] eq_refl),
                   (F1 ["source"; "js"; "script.js"] eq_refl). }
      destruct (buildJs T u5) as [[] u6]; done. }
    destruct Hrun as [w' Hw']. exists w', sample_run. eexists.
    split; [|split].
    + unfold sample_run.
      repeat (eapply reach_step; [vm_compute; auto 10|]). apply reach_refl.
    + reflexivity.
    + by rewrite apply_trace_run_tasks.
Qed.

End BuildCompletes.
(** ** Building twice *)

Lemma sources_lookup m q :
  sources m !! q = if Path.under ["build"] q then None else m !! q.
Proof.
  unfold sources. destruct (Path.under ["build"] q) eqn:Hq.
  - apply map_lookup_filter_None. right. intros c _. cbn [fst]. rewrite Hq.
    cbn. tauto.
  - apply option_eq. intros c. rewrite map_lookup_filter_Some. cbn [fst].
    rewrite Hq. cbn. tauto.
Qed.

Lemma sources_outside m : same_outside ["build"] m (sources m).
Proof. intros q Hq. by rewrite sources_lookup, Hq. Qed.

Lemma sources_same m m' :
  same_outside ["build"] m m' -> sources m = sources m'.
Proof.
  intros Hs. apply map_eq. intros q. rewrite !sources_lookup.
  destruct (Path.under ["build"] q) eqn:Hq; [done|]. by apply Hs.
Qed.

(** Tools that are shown the sources only read the sources only. *)
Lemma on_sources_reads_sources_only T : reads_sources_only (on_sources T).
Proof.
  intros m m' Hs. cbn. rewrite (sources_same m m' Hs). done.
Qed.

Lemma sources_decide_same T m0 m1 :
  same_outside ["build"] m0 m1 -> sources_decide T m0 -> sources_decide T m1.
Proof.
  intros Hs Hd m Hm.
  assert (Hm0 : same_outside ["build"] m0 m).
  { intros q Hq. by rewrite (Hs q Hq), (Hm q Hq). }
  destruct (Hd m Hm0) as (Hp & Hl & Hj).
  destruct (Hd m1 Hs) as (Hp1 & Hl1 & Hj1).
  split; [|split].
  - intros name c Hc. rewrite <- (Hs ["source"; "pages"; name] eq_refl) in Hc.
    by rewrite (Hp name c Hc), (Hp1 name c Hc).
  - intros c Hc. rewrite <- (Hs ["source"; "less"; "style.less"] eq_refl) in Hc.
    by rewrite (Hl c Hc), (Hl1 c Hc).
  - intros o c Hc. rewrite <- (Hs ["source"; "js"; "script.js"] eq_refl) in Hc.
    by rewrite (Hj o c Hc), (Hj1 o c Hc).
Qed.

(** Two chains that do the same to every file of the stream, in the worlds
    on the way, make the same stream. *)
Lemma feed_ext (I : world -> Prop) k k' vs w :
  I w ->
  (forall v u, v ∈ vs -> I u -> k false v u = k' false v u) ->
  (forall v u, v ∈ vs -> I u -> I (k false v u).2) ->
  feed k vs w = feed k' vs w.
Proof.
  revert w. induction vs as [|x vs IH]; intros w Hw He Hk; [done|].
  cbn [feed]. rewrite <- (He x w (list_elem_of_here _ _) Hw).
  pose proof (Hk x w (list_elem_of_here _ _) Hw) as Hu.
  destruct (k false x w) as [r u]. cbn [snd] in Hu.
  rewrite (IH u Hu).
  - done.
  - intros v u' Hv. apply He. by right.
  - intros v u' Hv. apply Hk. by right.
Qed.

Section Twice.

Variable T : toolchain.

(** On a project whose sources decide, the tasks do with [T] what they do
    with the tools that are shown the sources only. *)
Lemma body_on_sources m0 n u :
  sources_decide T m0 ->
  same_outside ["build"] m0 (fs u) ->
  In n [Clean; Copy; Images; Html; Style; BuildJs] ->
  body (on_sources T) n u = body T n u.
Proof.
  intros Hd Hu Hn.
  assert (Hat : forall x, same_outside ["build"] m0 (fs x) ->
            same_outside ["build"] m0 (sources (fs x))).
  { intros x Hx q Hq. by rewrite (Hx q Hq), <- (sources_outside (fs x) q Hq). }
  cbn in Hn. destruct Hn as [<-|[<-|[<-|[<-|[<-|[<-|[]]]]]]]; cbn [body];
    try reflexivity.
  - unfold html. rewrite !returns_found by reflexivity.
    apply (feed_ext (fun x => same_outside ["build"] m0 (fs x))); [done| |].
    + intros v x (name & c & Hc & _ & ->)%(html_source T) Hx.
      rewrite <- (Hu ["source"; "pages"; name] eq_refl) in Hc.
      rewrite (html_chain T), (html_chain (on_sources T)).
      cbn [pug_render html_prettify on_sources].
      destruct (Hd (fs x) Hx) as (Hp & _).
      destruct (Hd (sources (fs x)) (Hat x Hx)) as (Hp' & _).
      by rewrite (Hp name c Hc), (Hp' name c Hc).
    + intros v x (name & c & _ & _ & ->)%(html_source T) Hx q Hq.
      rewrite (Hx q Hq). symmetry.
      by apply (html_chain_outside (on_sources T) name c x x).
  - destruct (fs u !! ["source"; "less"; "style.less"]) as [c|] eqn:Hc.
    + rewrite (style_runs T u c Hc), (style_runs (on_sources T) u c Hc).
      rewrite <- (Hu ["source"; "less"; "style.less"] eq_refl) in Hc.
      cbn [feed chain pipe src]. plugins.
      destruct (Hd (fs u) Hu) as (_ & Hl & _).
      destruct (Hd (sources (fs u)) (Hat u Hu)) as (_ & Hl' & _).
      by rewrite (Hl c Hc), (Hl' c Hc).
    + by rewrite (style_not_found T u Hc), (style_not_found (on_sources T) u Hc).
  - destruct (fs u !! ["source"; "js"; "script.js"]) as [c|] eqn:Hc.
    + rewrite (buildJs_runs T u c Hc), (buildJs_runs (on_sources T) u c Hc).
      rewrite <- (Hu ["source"; "js"; "script.js"] eq_refl) in Hc.
      cbn [feed chain pipe src]. plugins.
      destruct (Hd (fs u) Hu) as (_ & _ & Hj).
      destruct (Hd (sources (fs u)) (Hat u Hu)) as (_ & _ & Hj').
      by rewrite (Hj _ c Hc), (Hj' _ c Hc).
    + by rewrite (buildJs_not_found T u Hc), (buildJs_not_found (on_sources T) u Hc).
Qed.

Lemma run_tasks_on_sources m0 l u :
  sources_decide T m0 ->
  same_outside ["build"] m0 (fs u) ->
  (forall n, In n l -> In n [Clean; Copy; Images; Html; Style; BuildJs]) ->
  run_tasks (on_sources T) l u = run_tasks T l u.
Proof.
  intros Hd. revert u. induction l as [|n l IH]; intros u Hu Hl; [done|].
  cbn [run_tasks].
  rewrite (body_on_sources m0 n u Hd Hu (Hl n (or_introl eq_refl))).
  assert (Hf : same_outside ["build"] m0 (fs (body T n u).2)).
  { intros q Hq. rewrite (Hu q Hq). symmetry.
    pose proof (Hl n (or_introl eq_refl)) as Hn. cbn in Hn.
    destruct Hn as [<-|Hn]; [by apply clean_frame|].
    apply (task_frame T n u); [|done]. cbn. tauto. }
  destruct (body T n u) as [[] x]; try done.
  apply IH; [done|]. intros n' Hn'. apply Hl. by right.
Qed.

Lemma completes_on_sources w w' :
  sources_decide T (fs w) ->
  completes T exports_build w w' -> completes (on_sources T) exports_build w w'.
Proof.
  intros Hd (o & Ho & Hrun)%completes_build_order.
  apply completes_build_order. exists o. split; [done|].
  rewrite (run_tasks_on_sources (fs w) o w Hd); [done|done|].
  intros n Hn. unfold build_orders in Ho. cbn in Ho.
  repeat (apply elem_of_cons in Ho as [->|Ho]); [..|by apply elem_of_nil in Ho];
    cbn in Hn |- *; tauto.
Qed.

(** C8, as the code has it: [exports.build] run a second time on the
    result of a first run leaves the same files, provided that what the
    compilers make of the pages, the stylesheet and the script of the
    project does not depend on the files below ['build'].  Then the output
    depends neither on what was below ['build'] before nor on the order in
    which the tasks of a stage complete.  Without the proviso the two
    outputs can differ. *)
Theorem build_twice_same_output (w w1 w2 : world) :
  sources_decide T (fs w) ->
  completes T exports_build w w1 ->
  completes T exports_build w1 w2 ->
  fs w2 = fs w1.
Proof.
  intros Hd H1 H2.
  assert (Hs : same_outside ["build"] (fs w) (fs w1)).
  { intros q Hq. symmetry. by apply (complete_build_outside T w w1). }
  apply (build_twice_reading_sources (on_sources T) w w1 w2).
  - apply on_sources_reads_sources_only.
  - by apply completes_on_sources.
  - apply completes_on_sources; [|done]. by apply (sources_decide_same T (fs w)).
Qed.

End Twice.

(** The counterexample of C8: with a template compiler that reads the
    compiled stylesheet, two complete runs in succession on the sample
    project, in which [html] completes before [style] the first time and
    after it the second time, leave different pages. *)
Example build_twice_differs_when_pug_reads_build :
  completes leaky_tools exports_build sample_world leaky_built /\
  completes leaky_tools exports_build leaky_built leaky_rebuilt /\
  fs leaky_built !! ["build"; "index.html"]
    = Some (String.list_byte_of_string "p hello") /\
  fs leaky_rebuilt !! ["build"; "index.html"]
    = Some (String.list_byte_of_string "p hello" ++ sample_less).
Proof.
  split; [|split].
  - exists sample_run. eexists. split; [|split].
    + unfold sample_run.
      repeat (eapply reach_step; [vm_compute; auto 10|]). apply reach_refl.
    + reflexivity.
    + vm_compute. reflexivity.
  - exists sample_rerun. eexists. split; [|split].
    + unfold sample_rerun.
      repeat (eapply reach_step; [vm_compute; auto 10|]). apply reach_refl.
    + reflexivity.
    + vm_compute. reflexivity.
  - evaluate.
Qed.

(** ** These properties on the sample project *)


(** A change of a page of the sample project ends with the reload. *)
Lemma reload_witness :
  exists w', completes sample_tools (series [task Html; task Reload]) sample_world w'.
Proof.
  destruct (reload_follows_completed_task sample_tools Html sample_world)
    as (_ & _ & _ & H).
  - cbn. tauto.
  - by apply H.
Defined.

(** imagemin accepts every image of the sample project. *)
Lemma sample_images_accepted p c :
  matches images_glob p = true -> fs sample_world !! p = Some c ->
  is_Some (imagemin_buffer sample_tools images_use c).
Proof.
  intros Hm Hc.
  assert (H : forallb (fun pc : path * bytes =>
                implb (matches images_glob pc.1)
                  (bool_decide (is_Some (imagemin_buffer sample_tools images_use pc.2))))
              (map_to_list (fs sample_world)) = true)
    by (vm_compute; reflexivity).
  rewrite forallb_forall in H.
  apply elem_of_map_to_list, list_elem_of_In, H in Hc. cbn [fst snd] in Hc.
  rewrite Hm in Hc. by apply bool_decide_eq_true in Hc.
Qed.

(** The sample project can be built. *)
Lemma build_completes_witness :
  exists w', completes sample_tools exports_build sample_world w'.
Proof.
  apply (build_completes_iff sample_tools sample_world).
  - vm_compute. eexists. reflexivity.
  - vm_compute. eexists. reflexivity.
  - split.
    + intros p Hp. by apply elem_of_nil in Hp.
    + intros p c. apply sample_images_accepted.
Defined.


(** An image in a hidden directory next to the images of the sample
    project. *)
Lemma hidden_files_witness :
  matches images_glob ["source"; "img"; ".cache"; "logo.png"] = false.
Proof.
  destruct (hidden_files_are_skipped sample_tools sample_world
              ["img"; ".cache"; "logo.png"]) as (_ & H & _).
  - vm_compute. reflexivity.
  - exact H.
Defined.

(** A page in a subdirectory of the pages of the sample project. *)
Lemma watched_witness :
  triggered (watchers (serve (fresh sample_sources [])).2) change
            ["source"; "pages"; "blog"; "post.pug"]
  = [series [task Html; task Reload]].
Proof.
  pose proof (watched_wider_than_compiled sample_tools sample_sources [] change
                ["blog"] "post.pug") as H.
  cbv zeta in H. destruct H as [H _].
  - cbn. tauto.
  - reflexivity.
  - destruct H as [H _]; [vm_compute; reflexivity|done|exact H].
Defined.

(** The page that the first build of the sample project leaves. *)
Lemma fresh_output_witness :
  built_from (fs sample_world) ["build"; "index.html"].
Proof.
  destruct (complete_build_leaves_no_stale_file sample_tools sample_world
              sample_built sample_run_completes) as [H _].
  apply H.
  - reflexivity.
  - vm_compute. eexists. reflexivity.
Defined.

(** The sample project is served after its first build. *)
Lemma default_serves_witness :
  exists tr r, reach (init exports_default) tr r /\
               In (Start Serve) tr /\
               apply_trace sample_tools tr sample_world = Some (serve sample_built).2.
Proof.
  destruct (default_serves_a_complete_build sample_tools sample_world) as [_ H].
  - vm_compute. eexists. reflexivity.
  - vm_compute. eexists. reflexivity.
  - exact (H sample_built sample_run_completes).
Defined.

(** A change of the partial ['source/pug/blocks/header.pug'] of the sample
    project: [html] and [reload] run, and the page is compiled again. *)
Lemma partial_change_witness :
  triggered (watchers (serve sample_world).2) change
            ["source"; "pug"; "blocks"; "header.pug"]
  = [series [task Html; task Reload]] /\
  fs (html sample_tools sample_world).2 !! ["build"; "index" +:+ ".html"]
  = Some (String.list_byte_of_string "p hello").
Proof.
  pose proof (partial_change_recompiles_all_pages sample_tools sample_sources []
                change ["blocks"] "header.pug") as H.
  cbv zeta in H. destruct H as (_ & Htr & _ & _ & Hpage & _).
  - right. by left.
  - reflexivity.
  - vm_compute. reflexivity.
  - split; [exact Htr|].
    destruct (Hpage sample_world "index" (String.list_byte_of_string "p hello"))
      as (u & lw & lc & _ & _ & _ & Hm).
    + reflexivity.
    + vm_compute. reflexivity.
    + assert (E1 : pug_render sample_tools (fs u)
                     ["source"; "pages"; "index" +:+ ".pug"]
                     (String.list_byte_of_string "p hello")
                   = Some (String.list_byte_of_string "p hello")) by reflexivity.
      assert (E2 : html_prettify sample_tools " " 2
                     (String.list_byte_of_string "p hello")
                   = Some (String.list_byte_of_string "p hello")) by reflexivity.
      rewrite E1, E2 in Hm. exact (proj1 Hm).
Defined.

Lemma sample_sources_decide : sources_decide sample_tools (fs sample_world).
Proof. intros m _. repeat split. Qed.

(** The second build of the sample project leaves what the first left. *)
Lemma build_twice_witness : fs sample_rebuilt = fs sample_built.
Proof.
  apply (build_twice_same_output sample_tools sample_world sample_built sample_rebuilt).
  - exact sample_sources_decide.
  - exact sample_run_completes.
  - exact sample_rerun_completes.
Defined.
